(** * The offline synchronisation code of the ONXLink backend

    A shallow embedding of the four hand-written offline queues of the
    backend and of the cache fallback:

    - [SyncQueue]  : [DatabaseManager] in [backend/app/database.py]
                     (the SQLite [sync_queue] table and its replay loop);
    - [Cache]      : the [cache_set]/[cache_get] pair of the same class;
    - [Analytics]  : [OfflineAnalyticsDB] in [backend/app/api/analytics.py];
    - [OfflineMgr] : [OfflineManager] in [backend/app/utils.py];
    - [Social]     : [OfflineContentManager] and
                     [SocialMediaService.process_offline_queue] in
                     [backend/app/services/social_service.py].

    Whatever the code asks of its environment (whether a SQLite statement
    raises, whether a session commits, what publishing a post returns, the
    clock, a fresh uuid, the lower case of a text that is not ASCII) is
    an explicit argument, so every function below is total and can be
    run on concrete inputs. *)

From Stdlib Require Import Ascii String.
From stdpp Require Import gmap strings list sorting.

Open Scope string_scope.
Open Scope Z_scope.
Open Scope list_scope.

(** ** Python values shared by the modules *)

Module Py.

(** The exception classes the handlers of the code tell apart. *)
Inductive exn : Type :=
| SocialServiceError (message : string)
| NameError (name : string)
| ConnectionError (message : string)
| RuntimeError (message : string)
| OtherError (message : string).

(** [str(e)] *)
Definition str (e : exn) : string :=
  match e with
  | SocialServiceError m => m
  | NameError n => "name '" +:+ n +:+ "' is not defined"
  | ConnectionError m => m
  | RuntimeError m => m
  | OtherError m => m
  end.

(** A call either returns or raises. *)
Inductive outcome (A : Type) : Type :=
| Returned (a : A)
| Raised (e : exn).
Arguments Returned {A} a.
Arguments Raised {A} e.

(** A text is held as its UTF-8 bytes: an ASCII character is one byte
    below 128, and every byte of any other character is 128 or more. *)
Fixpoint is_ascii_text (s : string) : bool :=
  match s with
  | EmptyString => true
  | String c s' => Nat.ltb (nat_of_ascii c) 128 && is_ascii_text s'
  end.

(** [c.lower()] on one ASCII character *)
Definition lower_ascii (c : ascii) : ascii :=
  let n := nat_of_ascii c in
  if (Nat.leb 65 n && Nat.leb n 90)%bool then ascii_of_nat (n + 32) else c.

(** [s.lower()] on a text of ASCII characters: the letters A to Z are
    lowered, nothing else changes. *)
Fixpoint lower_ascii_text (s : string) : string :=
  match s with
  | EmptyString => EmptyString
  | String c s' => String (lower_ascii c) (lower_ascii_text s')
  end.

(** [s.lower()]. On a text with a character outside ASCII the result
    follows the Unicode tables of the interpreter (U+212A, the Kelvin
    sign, lowers to the letter k); the model does not hold these tables
    and takes the result from the argument [unicode_lower]. *)
Definition lower (unicode_lower : string -> string) (s : string) : string :=
  if is_ascii_text s then lower_ascii_text s else unicode_lower s.

(** [sub in s] *)
Fixpoint contains (sub s : string) : bool :=
  String.prefix sub s ||
  match s with
  | EmptyString => false
  | String _ s' => contains sub s'
  end.

(** ["network" in text.lower() or "timeout" in text.lower()], the test
    the social service uses to tell a retryable error from a permanent
    one. *)
Definition is_network_error (unicode_lower : string -> string)
    (text : string) : bool :=
  contains "network" (lower unicode_lower text)
  || contains "timeout" (lower unicode_lower text).

(** The payloads the queues carry are [Dict[str, Any]] values that went
    through [json.dumps]; a column holding such a text is modelled by the
    dictionary it denotes, which [json.loads] gives back. *)
Inductive json_value : Type :=
| JNull
| JBool (b : bool)
| JInt (z : Z)
| JStr (s : string).

#[export] Instance json_value_eq_dec : EqDecision json_value.
Proof. solve_decision. Defined.

Definition json_dict : Type := list (string * json_value).

End Py.

Export Py.

(** ** [DatabaseManager]: the SQLite sync queue (database.py) *)

Module SyncQueue.

(** One row of the [sync_queue] table (lines 230-240). [status] is a
    TEXT column: the code writes ['pending'], ['synced'] and ['failed'],
    the column itself takes any text. [created_at] holds the text
    [CURRENT_TIMESTAMP] produced; SQLite orders it bytewise. *)
Record sync_row : Type := {
  id : Z;
  table_name : string;
  operation : string;
  record_id : string;
  data : json_dict;
  created_at : string;
  retry_count : Z;
  max_retries : Z;
  status : string
}.

(** [SET status = s] *)
Definition set_status (s : string) (r : sync_row) : sync_row :=
  {| id := id r; table_name := table_name r; operation := operation r;
     record_id := record_id r; data := data r; created_at := created_at r;
     retry_count := retry_count r; max_retries := max_retries r;
     status := s |}.

(** [SET retry_count = retry_count + 1] *)
Definition incr_retry_count (r : sync_row) : sync_row :=
  {| id := id r; table_name := table_name r; operation := operation r;
     record_id := record_id r; data := data r; created_at := created_at r;
     retry_count := retry_count r + 1; max_retries := max_retries r;
     status := status r |}.

(** [UPDATE sync_queue SET ... WHERE id = ?] *)
Definition update_where_id (f : sync_row -> sync_row) (rid : Z)
    (tbl : list sync_row) : list sync_row :=
  (fun r => if decide (id r = rid) then f r else r) <$> tbl.

(** [SELECT * FROM sync_queue WHERE id = ?] *)
Definition row_of (rid : Z) (tbl : list sync_row) : option sync_row :=
  head (filter (fun r => id r = rid) tbl).

(** The SQLite file: what survives a restart of the process.
    [tables_created] tells whether the [sync_queue] table exists,
    [next_rowid] is its AUTOINCREMENT counter. *)
Record disk : Type := {
  tables_created : bool;
  sync_queue : list sync_row;
  next_rowid : Z
}.

Definition empty_disk : disk :=
  {| tables_created := false; sync_queue := []; next_rowid := 1 |}.

(** The main (PostgreSQL) database, keyed by table and record id. *)
Definition remote : Type := gmap (string * string) json_dict.

(** The fields of [DatabaseManager] the queue code reads, with the two
    stores. [async_session_factory] is [true] when the attribute is not
    [None]. *)
Record db_state : Type := {
  is_offline_mode : bool;
  async_session_factory : bool;
  offline : disk;
  main_db : remote
}.

Definition with_queue (st : db_state) (tbl : list sync_row) (db : remote)
    : db_state :=
  {| is_offline_mode := is_offline_mode st;
     async_session_factory := async_session_factory st;
     offline := {| tables_created := tables_created (offline st);
                   sync_queue := tbl;
                   next_rowid := next_rowid (offline st) |};
     main_db := db |}.

(** [DatabaseManager.__init__] (lines 69-80) over an existing SQLite
    file and main database. *)
Definition new_manager (d : disk) (db : remote) : db_state :=
  {| is_offline_mode := false; async_session_factory := false;
     offline := d; main_db := db |}.

(** How [_setup_main_database] (lines 94-147) ends: the session factory
    is assigned at line 127, between the two places that can raise. *)
Inductive main_setup : Type :=
| MainReady
| MainFailsBeforeFactory
| MainFailsAfterFactory.

(** What [initialize] meets. [setup_redis_ok] is [false] when
    [_setup_redis_cache] raises something other than the
    [RedisConnectionError] it handles itself, [setup_offline_ok] when
    [_setup_offline_database] raises before it creates the tables. *)
Record init_env : Type := {
  setup_main : main_setup;
  setup_redis_ok : bool;
  setup_offline_ok : bool;
  test_connections_ok : bool
}.

(** [_setup_offline_database] (lines 180-260): pragmas, then
    [CREATE TABLE IF NOT EXISTS] and [CREATE INDEX IF NOT EXISTS]: a
    missing table is created empty, an existing one is left alone. *)
Definition _setup_offline_database (d : disk) : disk :=
  if tables_created d then d
  else {| tables_created := true; sync_queue := []; next_rowid := 1 |}.

(** [_enable_offline_mode] (lines 285-288) *)
Definition _enable_offline_mode (st : db_state) : db_state :=
  {| is_offline_mode := true;
     async_session_factory := async_session_factory st;
     offline := offline st; main_db := main_db st |}.

(** [initialize] (lines 82-92): the four set-up steps in order; the
    first one that raises sends the manager to offline mode. *)
Definition initialize (env : init_env) (st : db_state) : db_state :=
  match setup_main env with
  | MainFailsBeforeFactory => _enable_offline_mode st
  | MainFailsAfterFactory =>
      _enable_offline_mode
        {| is_offline_mode := is_offline_mode st;
           async_session_factory := true;
           offline := offline st; main_db := main_db st |}
  | MainReady =>
      let st1 := {| is_offline_mode := is_offline_mode st;
                    async_session_factory := true;
                    offline := offline st; main_db := main_db st |} in
      if negb (setup_redis_ok env) then _enable_offline_mode st1
      else if negb (setup_offline_ok env) then _enable_offline_mode st1
      else
        let st2 := {| is_offline_mode := is_offline_mode st1;
                      async_session_factory := async_session_factory st1;
                      offline := _setup_offline_database (offline st1);
                      main_db := main_db st1 |} in
        if negb (test_connections_ok env) then _enable_offline_mode st2
        else st2
  end.

(** A restart: a new process builds a new manager over the files the
    old one left and initialises it. *)
Definition restart (env : init_env) (st : db_state) : db_state :=
  initialize env (new_manager (offline st) (main_db st)).

(** [get_async_session] (lines 290-308) around a body: the two guards,
    the body, then the commit (whose failure rolls the session back and
    re-raises). *)
Definition get_async_session (st : db_state) (commit_ok : bool)
    (db : remote) (body : remote -> outcome remote) : outcome remote :=
  if is_offline_mode st then
    Raised (ConnectionError "Database is in offline mode")
  else if negb (async_session_factory st) then
    Raised (RuntimeError "Database not initialized")
  else
    match body db with
    | Returned db' =>
        if commit_ok then Returned db'
        else Raised (OtherError "commit failed")
    | Raised e => Raised e
    end.

(** [_execute_sync_operation] (lines 476-492): every branch of the
    [if]/[elif] chain is [pass]. *)
Definition _execute_sync_operation (st : db_state) (commit_ok : bool)
    (db : remote) (op : sync_row) : outcome remote :=
  get_async_session st commit_ok db (fun session =>
    if decide (operation op = "INSERT") then Returned session
    else if decide (operation op = "UPDATE") then Returned session
    else if decide (operation op = "DELETE") then Returned session
    else Returned session).

(** What one run of [_process_sync_queue] meets. [commit_ok] tells, per
    row id, whether the main-database session of that row commits;
    [mark_synced_ok] whether the UPDATE of line 449 returns: it stands
    inside the inner [try], so when it raises the handler of line 454
    records a failed attempt. [sqlite_fails_after = Some n] when a SQLite
    call outside the inner [try] raises once [n] rows have been handed to
    [_execute_sync_operation]: the connect or the SELECT for [n = 0], an
    UPDATE of the handler for the [n]-th row, the final commit for [n]
    the size of the batch or more. *)
Record tick_env : Type := {
  sqlite_fails_after : option nat;
  commit_ok : Z -> bool;
  mark_synced_ok : Z -> bool
}.

(** The WHERE clause of line 441 *)
Definition eligible (r : sync_row) : Prop :=
  status r = "pending" ∧ retry_count r < max_retries r.

#[export] Instance eligible_dec r : Decision (eligible r).
Proof. unfold eligible. apply _. Defined.

(** [ORDER BY created_at] *)
Definition created_le (r1 r2 : sync_row) : Prop :=
  String.le (created_at r1) (created_at r2).

#[export] Instance created_le_dec : RelDecision created_le.
Proof. intros r1 r2. unfold created_le. apply _. Defined.

(** The SELECT of lines 440-442 *)
Definition select_pending (tbl : list sync_row) : list sync_row :=
  merge_sort created_le (filter eligible tbl).

(** The loop state: the table as updated inside the open transaction,
    the main database, and the rows whose [_execute_sync_operation]
    returned. *)
Record loop_state : Type := {
  tbl : list sync_row;
  db : remote;
  applied : list sync_row
}.

(** The body of the [for] loop (lines 444-468) for one fetched [row]. *)
Definition sync_one (st : db_state) (env : tick_env) (acc : loop_state)
    (row : sync_row) : loop_state :=
  let handler (db' : remote) (applied' : list sync_row) : loop_state :=
    let tbl1 := update_where_id incr_retry_count (id row) (tbl acc) in
    {| tbl := if decide (retry_count row + 1 >= max_retries row)
              then update_where_id (set_status "failed") (id row) tbl1
              else tbl1;
       db := db';
       applied := applied' |} in
  match _execute_sync_operation st (commit_ok env (id row)) (db acc) row with
  | Returned db' =>
      if mark_synced_ok env (id row) then
        {| tbl := update_where_id (set_status "synced") (id row) (tbl acc);
           db := db';
           applied := applied acc ++ [row] |}
      else handler db' (applied acc ++ [row])
  | Raised _ => handler (db acc) (applied acc)
  end.

Definition sync_loop (st : db_state) (env : tick_env)
    (rows : list sync_row) : loop_state :=
  foldl (sync_one st env)
    {| tbl := sync_queue (offline st); db := main_db st; applied := [] |}
    rows.

(** [_process_sync_queue] (lines 433-474), together with the rows it
    applied. The updates reach the file only through [conn.commit()] at
    line 470; when a SQLite call raises (the SELECT does when the table
    is missing), the handler of line 473 logs and the function returns
    with nothing committed. *)
Definition process_sync_queue_traced (st : db_state) (env : tick_env)
    : db_state * list sync_row :=
  if is_offline_mode st then (st, [])
  else if negb (tables_created (offline st)) then (st, [])
  else
    let rows := select_pending (sync_queue (offline st)) in
    match sqlite_fails_after env with
    | None =>
        let r := sync_loop st env rows in
        (with_queue st (tbl r) (db r), applied r)
    | Some n =>
        let r := sync_loop st env (take n rows) in
        (with_queue st (sync_queue (offline st)) (db r), applied r)
    end.

Definition _process_sync_queue (st : db_state) (env : tick_env) : db_state :=
  (process_sync_queue_traced st env).1.

(** The INSERT of lines 416-420; the other columns take their
    defaults. *)
Definition insert_row (d : disk) (now table_name operation record_id : string)
    (data : json_dict) : disk :=
  {| tables_created := tables_created d;
     sync_queue := sync_queue d ++
       [ {| id := next_rowid d; table_name := table_name;
            operation := operation; record_id := record_id; data := data;
            created_at := now; retry_count := 0; max_retries := 3;
            status := "pending" |} ];
     next_rowid := next_rowid d + 1 |}.

Record enqueue_env : Type := {
  insert_ok : bool;
  now : string;
  tick : tick_env
}.

(** [queue_sync_operation] (lines 411-431); the INSERT raises when the
    table is missing, whatever else the environment does. *)
Definition queue_sync_operation (st : db_state) (env : enqueue_env)
    (table_name operation record_id : string) (data : json_dict)
    : bool * db_state :=
  if insert_ok env && tables_created (offline st) then
    let st1 := {| is_offline_mode := is_offline_mode st;
                  async_session_factory := async_session_factory st;
                  offline := insert_row (offline st) (now env) table_name
                               operation record_id data;
                  main_db := main_db st |} in
    (true, if negb (is_offline_mode st1)
           then _process_sync_queue st1 (tick env) else st1)
  else (false, st).

(** The operations the engine performs on a manager. *)
Inductive engine_step : db_state -> db_state -> Prop :=
| step_enqueue st env tn op rid d :
    engine_step st (queue_sync_operation st env tn op rid d).2
| step_tick st env :
    engine_step st (_process_sync_queue st env)
| step_restart st env :
    engine_step st (restart env st).

(** The states a manager can be in: started on an empty SQLite file
    (initialised or not yet), then any number of engine steps. *)
Inductive reachable : db_state -> Prop :=
| reach_new db0 : reachable (new_manager empty_disk db0)
| reach_step st st' : reachable st -> engine_step st st' -> reachable st'.

#[export] Instance sync_row_eq_dec : EqDecision sync_row.
Proof. solve_decision. Defined.

(** Whether [_execute_sync_operation] returns for [row]: the two guards
    of [get_async_session] and the commit. *)
Definition exec_returns (st : db_state) (env : tick_env) (row : sync_row)
    : bool :=
  negb (is_offline_mode st) && async_session_factory st && commit_ok env (id row).

(** Whether the inner [try] of lines 445-452 completes for [row]. *)
Definition exec_ok (st : db_state) (env : tick_env) (row : sync_row) : bool :=
  exec_returns st env row && mark_synced_ok env (id row).

(** What the UPDATEs of lines 449-468 do to a table row [r] that has the
    id of the fetched [row]: the test of line 464 reads the fetched
    copy. *)
Definition apply_row (st : db_state) (env : tick_env) (row r : sync_row)
    : sync_row :=
  if exec_ok st env row then set_status "synced" r
  else if decide (retry_count row + 1 >= max_retries row)
       then set_status "failed" (incr_retry_count r)
       else incr_retry_count r.

(** What lines 445-468 do to the fetched row itself. *)
Definition tick_row (st : db_state) (env : tick_env) (r : sync_row) : sync_row :=
  apply_row st env r r.

(** What lines 440-468 do to a row of the table and to the whole table:
    every row the SELECT returns goes through [tick_row]. *)
Definition after_tick (st : db_state) (env : tick_env) (r : sync_row)
    : sync_row :=
  if decide (eligible r) then tick_row st env r else r.

Definition tick_table (st : db_state) (env : tick_env) (t : list sync_row)
    : list sync_row :=
  after_tick st env <$> t.

(** The two statuses after which the SELECT of line 441 no longer
    returns a row. *)
Definition terminal (r : sync_row) : Prop :=
  status r = "synced" ∨ status r = "failed".

(** The invariant of a row: the three statuses, the retry count within
    its bound, and ['failed'] exactly at the bound. *)
Definition row_inv (r : sync_row) : Prop :=
  (status r = "pending" ∨ status r = "synced" ∨ status r = "failed") ∧
  0 <= retry_count r <= max_retries r ∧
  max_retries r = 3 ∧
  (status r = "failed" <-> retry_count r = max_retries r).

(** The invariant of the file: [id] is a key below the AUTOINCREMENT
    counter, every row satisfies [row_inv], and a missing table has no
    rows. *)
Definition queue_inv (d : disk) : Prop :=
  NoDup (id <$> sync_queue d) ∧
  Forall (fun r => id r < next_rowid d) (sync_queue d) ∧
  Forall row_inv (sync_queue d) ∧
  (tables_created d = false -> sync_queue d = [] ∧ next_rowid d = 1).

(** The attempts a row still has: none once it has left ['pending']. *)
Definition remaining_budget (r : sync_row) : Z :=
  if decide (status r = "pending") then max_retries r - retry_count r else 0.

(** Any number of engine steps. *)
Inductive engine_steps : db_state -> db_state -> Prop :=
| steps_refl st : engine_steps st st
| steps_cons st st' st'' :
    engine_step st st' -> engine_steps st' st'' -> engine_steps st st''.

(** [n] runs of [_process_sync_queue], run [i] meeting [envs i]. *)
Fixpoint run_ticks (envs : nat -> tick_env) (n : nat) (st : db_state)
    : db_state :=
  match n with
  | O => st
  | S n' => _process_sync_queue (run_ticks envs n' st) (envs n')
  end.

End SyncQueue.

(** ** [DatabaseManager]: the cache with its SQLite fallback (database.py) *)

Module Cache.

(** A cached value with the instant (seconds) at which it expires. *)
Record cache_row : Type := {
  value : json_value;
  expires_at : Z
}.

(** [async_redis_client] is [true] when the attribute is not [None];
    [redis] is the content of the Redis server, [app_cache] the SQLite
    table of lines 242-247. *)
Record cache_state : Type := {
  async_redis_client : bool;
  redis : gmap string cache_row;
  app_cache : gmap string cache_row
}.

(** What one cache call meets: the clock, whether the Redis command
    returns, whether the SQLite statements return. *)
Record cache_env : Type := {
  utcnow : Z;
  redis_ok : bool;
  sqlite_ok : bool
}.

(** The instants a [datetime] holds, in seconds from 1970-01-01:
    [datetime.min] is the start of year 1, [datetime.max] the last second
    of year 9999. *)
Definition datetime_min : Z := -62135596800.
Definition datetime_max : Z := 253402300799.

(** Whether [datetime.utcnow() + timedelta(seconds=ttl)] (line 368) has
    a value: a [timedelta] holds up to 999999999 days either way, and the
    sum must be a [datetime]; otherwise the expression raises
    [OverflowError]. *)
Definition expires_ok (env : cache_env) (ttl : Z) : bool :=
  bool_decide (-999999999 <= ttl / 86400 <= 999999999)
  && bool_decide (datetime_min <= utcnow env + ttl <= datetime_max).

(** [_offline_cache_set] (lines 364-379): the connection, the expiry and
    the INSERT all stand inside the [try], whose handler returns
    [False]. *)
Definition _offline_cache_set (st : cache_state) (env : cache_env)
    (key : string) (v : json_value) (ttl : Z) : bool * cache_state :=
  if sqlite_ok env && expires_ok env ttl then
    (true,
     {| async_redis_client := async_redis_client st;
        redis := redis st;
        app_cache := <[key := {| value := v; expires_at := utcnow env + ttl |}]>
                       (app_cache st) |})
  else (false, st).

(** [cache_set] (lines 326-337) *)
Definition cache_set (st : cache_state) (env : cache_env)
    (key : string) (v : json_value) (ttl : Z) : bool * cache_state :=
  if async_redis_client st then
    if redis_ok env then
      (true,
       {| async_redis_client := async_redis_client st;
          redis := <[key := {| value := v; expires_at := utcnow env + ttl |}]>
                     (redis st);
          app_cache := app_cache st |})
    else (false, st)
  else _offline_cache_set st env key v ttl.

(** [_offline_cache_get] (lines 381-397) *)
Definition _offline_cache_get (st : cache_state) (env : cache_env)
    (key : string) : option json_value :=
  if sqlite_ok env then
    match app_cache st !! key with
    | Some row => if decide (expires_at row > utcnow env)
                  then Some (value row) else None
    | None => None
    end
  else None.

(** [cache_get] (lines 339-350) *)
Definition cache_get (st : cache_state) (env : cache_env)
    (key : string) : option json_value :=
  if async_redis_client st then
    if redis_ok env then
      match redis st !! key with
      | Some row => if decide (expires_at row > utcnow env)
                    then Some (value row) else None
      | None => None
      end
    else None
  else _offline_cache_get st env key.

End Cache.

(** ** [OfflineAnalyticsDB] (api/analytics.py) *)

Module Analytics.

(** One row of [analytics_events] (lines 162-176). [timestamp] is the
    ISO text of the event time; SQLite orders it bytewise. *)
Record event_row : Type := {
  id : Z;
  event_type : string;
  user_id : string;
  session_id : string;
  timestamp : string;
  properties : json_dict;
  metadata : json_dict;
  platform : string;
  app_version : string;
  offline : bool;
  synced : bool
}.

Record analytics_db : Type := {
  analytics_events : list event_row;
  next_rowid : Z
}.

(** [store_event] (lines 203-227); the [id] of [event] is ignored, the
    table assigns its own. *)
Definition store_event (dbs : analytics_db) (sqlite_ok : bool)
    (event : event_row) : bool * analytics_db :=
  if sqlite_ok then
    (true,
     {| analytics_events := analytics_events dbs ++
          [ {| id := next_rowid dbs; event_type := event_type event;
               user_id := user_id event; session_id := session_id event;
               timestamp := timestamp event; properties := properties event;
               metadata := metadata event; platform := platform event;
               app_version := app_version event; offline := offline event;
               synced := synced event |} ];
        next_rowid := next_rowid dbs + 1 |})
  else (false, dbs).

(** [ORDER BY timestamp ASC] *)
Definition timestamp_le (e1 e2 : event_row) : Prop :=
  String.le (timestamp e1) (timestamp e2).

#[export] Instance timestamp_le_dec : RelDecision timestamp_le.
Proof. intros e1 e2. unfold timestamp_le. apply _. Defined.

(** [LIMIT ?]: a negative limit is no limit in SQLite. *)
Definition sql_limit {A : Type} (limit : Z) (l : list A) : list A :=
  if decide (limit < 0) then l else take (Z.to_nat limit) l.

(** [get_unsynced_events] (lines 229-245) *)
Definition get_unsynced_events (dbs : analytics_db) (sqlite_ok : bool)
    (limit : Z) : list event_row :=
  if sqlite_ok then
    sql_limit limit
      (merge_sort timestamp_le
         (filter (fun e => synced e = false) (analytics_events dbs)))
  else [].

(** [SET synced = TRUE] *)
Definition set_synced (e : event_row) : event_row :=
  {| id := id e; event_type := event_type e; user_id := user_id e;
     session_id := session_id e; timestamp := timestamp e;
     properties := properties e; metadata := metadata e;
     platform := platform e; app_version := app_version e;
     offline := offline e; synced := true |}.

(** [mark_events_synced] (lines 247-262) *)
Definition mark_events_synced (dbs : analytics_db) (sqlite_ok : bool)
    (event_ids : list Z) : bool * analytics_db :=
  if sqlite_ok then
    (true,
     {| analytics_events :=
          (fun e => if decide (id e ∈ event_ids) then set_synced e else e)
            <$> analytics_events dbs;
        next_rowid := next_rowid dbs |})
  else (false, dbs).

End Analytics.

(** ** [OfflineManager] (utils.py) *)

Module OfflineMgr.

(** One row of [offline_queue] (lines 859-866) *)
Record offline_row : Type := {
  id : Z;
  action : string;
  data : json_dict;
  attempts : Z
}.

(** [queue] is the in-memory deque, [offline_queue] the table behind
    [self.db], [last_sync] the instant of the last completed drain. *)
Record mgr_state : Type := {
  queue : list (string * json_dict);
  offline_queue : list offline_row;
  next_id : Z;
  last_sync : Z
}.

Definition with_memory_queue (st : mgr_state) (q : list (string * json_dict))
    : mgr_state :=
  {| queue := q; offline_queue := offline_queue st; next_id := next_id st;
     last_sync := last_sync st |}.

Definition with_table (st : mgr_state) (t : list offline_row) : mgr_state :=
  {| queue := queue st; offline_queue := t; next_id := next_id st;
     last_sync := last_sync st |}.

(** [queue_action] (lines 868-879): the deque first, then the INSERT
    inside a [try] whose handler only logs. The function has no [return]:
    the caller gets [None] on both paths. *)
Definition queue_action (st : mgr_state) (db_ok : bool)
    (a : string) (d : json_dict) : outcome unit * mgr_state :=
  let st1 := with_memory_queue st (queue st ++ [(a, d)]) in
  if db_ok then
    (Returned (),
     {| queue := queue st1;
        offline_queue := offline_queue st1 ++
          [ {| id := next_id st1; action := a; data := d; attempts := 0 |} ];
        next_id := next_id st1 + 1;
        last_sync := last_sync st1 |})
  else (Returned (), st1).

(** [_execute_action] (lines 908-914), the placeholder of the class *)
Definition _execute_action (a : string) (d : json_dict) : outcome bool :=
  Returned true.

(** Equality of two values of the JSONB column [data] (line 862): two
    objects are equal when they bind the same keys to the same values,
    in whatever order the keys were written; of two bindings of one key
    the last one counts. *)
Definition jsonb_eq (d1 d2 : json_dict) : Prop :=
  (list_to_map (reverse d1) : gmap string json_value)
    = list_to_map (reverse d2).

#[export] Instance jsonb_eq_dec d1 d2 : Decision (jsonb_eq d1 d2).
Proof. unfold jsonb_eq. apply _. Defined.

(** [WHERE action = $1 AND data = $2] (lines 894 and 919-920) *)
Definition same_action (a : string) (d : json_dict) (r : offline_row)
    : Prop :=
  action r = a ∧ jsonb_eq (data r) d.

#[export] Instance same_action_dec a d r : Decision (same_action a d r).
Proof. unfold same_action. apply _. Defined.

(** [DELETE FROM offline_queue WHERE action = $1 AND data = $2] *)
Definition delete_matching (a : string) (d : json_dict)
    (t : list offline_row) : list offline_row :=
  filter (fun r => ¬ same_action a d r) t.

(** [_increment_attempt] (lines 916-922) *)
Definition _increment_attempt (a : string) (d : json_dict)
    (t : list offline_row) : list offline_row :=
  (fun r => if decide (same_action a d r)
            then {| id := id r; action := action r; data := data r;
                    attempts := attempts r + 1 |}
            else r) <$> t.

(** What one iteration of the drain loop meets: whether the DELETE of
    line 892, the [_increment_attempt] of line 899 and the
    [_increment_attempt] of the handler (line 903) return. *)
Record iter_env : Type := {
  delete_ok : bool;
  increment_ok : bool;
  handler_increment_ok : bool
}.

(** The body of the [while] loop (lines 885-903) once [(a, d)] has been
    popped; [execute] is the method bound to [self._execute_action]. *)
Definition process_one (execute : string -> json_dict -> outcome bool)
    (env : iter_env) (st : mgr_state) (a : string) (d : json_dict)
    : outcome unit * mgr_state :=
  let handler (st' : mgr_state) : outcome unit * mgr_state :=
    let st1 := with_memory_queue st' (queue st' ++ [(a, d)]) in
    if handler_increment_ok env
    then (Returned (), with_table st1 (_increment_attempt a d (offline_queue st1)))
    else (Raised (OtherError "database error"), st1) in
  match execute a d with
  | Returned true =>
      if delete_ok env
      then (Returned (), with_table st (delete_matching a d (offline_queue st)))
      else handler st
  | Returned false =>
      let st1 := with_memory_queue st (queue st ++ [(a, d)]) in
      if increment_ok env
      then (Returned (), with_table st1 (_increment_attempt a d (offline_queue st1)))
      else handler st1
  | Raised _ => handler st
  end.

(** How a run of the loop ends within a number of iterations. *)
Inductive drain : Type :=
| Finished (st : mgr_state)
| Escaped (e : exn) (st : mgr_state)
| StillRunning (st : mgr_state).

(** [process_queue] (lines 881-906): [fuel] bounds the number of loop
    tests, [envs i] is what iteration [i] meets, [now] the clock read at
    line 906. *)
Fixpoint process_queue_from (execute : string -> json_dict -> outcome bool)
    (envs : nat -> iter_env) (now : Z) (fuel i : nat) (st : mgr_state)
    : drain :=
  match fuel with
  | O => StillRunning st
  | S fuel' =>
      match queue st with
      | [] => Finished {| queue := []; offline_queue := offline_queue st;
                          next_id := next_id st; last_sync := now |}
      | (a, d) :: q =>
          match process_one execute (envs i) (with_memory_queue st q) a d with
          | (Returned _, st') =>
              process_queue_from execute envs now fuel' (S i) st'
          | (Raised e, st') => Escaped e st'
          end
      end
  end.

Definition process_queue (execute : string -> json_dict -> outcome bool)
    (envs : nat -> iter_env) (now : Z) (fuel : nat) (st : mgr_state) : drain :=
  process_queue_from execute envs now fuel 0 st.

End OfflineMgr.

(** ** The offline post queue (services/social_service.py) *)

Module Social.

(** An entry of [post_queue.json], as [queue_for_publishing] builds it
    (lines 134-140). [post] is the dictionary [post.to_dict()]. *)
Record queue_item : Type := {
  id : string;
  post : json_dict;
  queued_at : string;
  retry_count : Z;
  max_retries : Z
}.

(** [queue_item['retry_count'] += 1] *)
Definition incr_retry_count (it : queue_item) : queue_item :=
  {| id := id it; post := post it; queued_at := queued_at it;
     retry_count := retry_count it + 1; max_retries := max_retries it |}.

(** [_load_queue] (lines 168-177) on a file holding [file]: the
    dictionary from user id to that user's list. A missing or unreadable
    file reads as the empty dictionary. *)
Definition _load_queue (file : gmap string (list queue_item))
    : gmap string (list queue_item) := file.

(** [queue.get(user_id, [])] *)
Definition user_queue_of (queue : gmap string (list queue_item))
    (user_id : string) : list queue_item :=
  default [] (queue !! user_id).

(** [queue_for_publishing] (lines 124-150), given the uuid and the clock
    text it draws: the new file and the returned queue id. Writing the
    file is taken to succeed (a failure is logged and re-raised at lines
    148-150). *)
Definition queue_for_publishing (file : gmap string (list queue_item))
    (user_id : string) (p : json_dict) (uuid4 utcnow : string)
    : string * gmap string (list queue_item) :=
  let queue := _load_queue file in
  let item := {| id := uuid4; post := p; queued_at := utcnow;
                 retry_count := 0; max_retries := 3 |} in
  (uuid4, <[user_id := user_queue_of queue user_id ++ [item]]> queue).

(** What [publish_to_platforms] (lines 562-632) does for the one platform
    of a queued post. [PubFailed] is a result with [success] false and
    the given error text; when that text names a network error the
    function has re-queued the post at line 626, with the post, uuid and
    clock text given. [PubRaised] also stands for the two constructors of
    lines 797 and 800 raising. *)
Inductive publish_outcome : Type :=
| PubOk
| PubFailed (error : string) (requeued : json_dict) (uuid4 utcnow : string)
| PubRaised (e : exn).

(** The locals of [process_offline_queue] while one item is handled.
    [updated_queue] is [None] while the name is unbound. [published] is
    the list of posts that went out. *)
Record locals : Type := {
  queue_item_ : queue_item;
  processed : Z;
  failed : Z;
  updated_queue : option (list queue_item);
  file_ : gmap string (list queue_item);
  published : list json_dict
}.

Definition with_item (s : locals) (it : queue_item) : locals :=
  {| queue_item_ := it; processed := processed s; failed := failed s;
     updated_queue := updated_queue s; file_ := file_ s;
     published := published s |}.

(** [failed += 1] *)
Definition count_failed (s : locals) : locals :=
  {| queue_item_ := queue_item_ s; processed := processed s;
     failed := failed s + 1; updated_queue := updated_queue s;
     file_ := file_ s; published := published s |}.

(** The block written three times (lines 808-812, 815-819, 825-829):
    increment, then keep the item or count it as failed. Reading an
    unbound [updated_queue] raises [NameError]. *)
Definition retry_or_fail (s : locals) : locals * option exn :=
  let s1 := with_item s (incr_retry_count (queue_item_ s)) in
  if decide (retry_count (queue_item_ s1) < max_retries (queue_item_ s1)) then
    match updated_queue s1 with
    | None => (s1, Some (NameError "updated_queue"))
    | Some q =>
        ({| queue_item_ := queue_item_ s1; processed := processed s1;
            failed := failed s1;
            updated_queue := Some (q ++ [queue_item_ s1]);
            file_ := file_ s1; published := published s1 |}, None)
    end
  else (count_failed s1, None).

(** The [try] body (lines 796-812) *)
Definition try_body (unicode_lower : string -> string)
    (publish : string -> json_dict -> publish_outcome)
    (user_id : string) (s : locals) : locals * option exn :=
  match publish user_id (post (queue_item_ s)) with
  | PubRaised e => (s, Some e)
  | PubOk =>
      ({| queue_item_ := queue_item_ s; processed := processed s + 1;
          failed := failed s; updated_queue := updated_queue s;
          file_ := file_ s;
          published := published s ++ [post (queue_item_ s)] |}, None)
  | PubFailed error requeued uuid4 utcnow =>
      retry_or_fail
        {| queue_item_ := queue_item_ s; processed := processed s;
           failed := failed s; updated_queue := updated_queue s;
           file_ := if is_network_error unicode_lower error
                    then (queue_for_publishing (file_ s) user_id requeued
                            uuid4 utcnow).2
                    else file_ s;
           published := published s |}
  end.

(** One iteration (lines 795-831): the body under its two handlers. An
    exception raised inside a handler leaves the loop. *)
Definition process_item (unicode_lower : string -> string)
    (publish : string -> json_dict -> publish_outcome)
    (user_id : string) (s : locals) : locals * option exn :=
  match try_body unicode_lower publish user_id s with
  | (s1, None) => (s1, None)
  | (s1, Some (SocialServiceError _)) => retry_or_fail s1
  | (s1, Some e) =>
      if is_network_error unicode_lower (str e) then retry_or_fail s1
      else (count_failed s1, None)
  end.

(** The state of the [for] loop: the items already visited, as the loop
    left them in memory, and the locals. *)
Record loop_state : Type := {
  visited : list queue_item;
  vars : locals
}.

(** The [for] loop (lines 794-831) over the items still to visit *)
Fixpoint for_loop (unicode_lower : string -> string)
    (publish : string -> json_dict -> publish_outcome)
    (user_id : string) (ls : loop_state) (items : list queue_item)
    : loop_state * list queue_item * option exn :=
  match items with
  | [] => (ls, [], None)
  | it :: rest =>
      match process_item unicode_lower publish user_id (with_item (vars ls) it) with
      | (s, None) =>
          for_loop unicode_lower publish user_id
            {| visited := visited ls ++ [queue_item_ s]; vars := s |} rest
      | (s, Some e) =>
          ({| visited := visited ls ++ [queue_item_ s]; vars := s |},
           rest, Some e)
      end
  end.

(** The dictionary the function returns *)
Record summary : Type := {
  r_processed : Z;
  r_failed : Z;
  r_remaining : Z;
  r_error : option string
}.

(** What a call leaves behind: the returned dictionary, the queue file,
    the user's list as it stands in memory, the counters at the point the
    loop was left, and the posts that went out. *)
Record call : Type := {
  returned : summary;
  file_after : gmap string (list queue_item);
  in_memory : list queue_item;
  counted_processed : Z;
  counted_failed : Z;
  sent : list json_dict
}.

(** [process_offline_queue] (lines 785-854) with [updated_queue] bound
    to [uq0] on entry. *)
Definition process_offline_queue_from (uq0 : option (list queue_item))
    (unicode_lower : string -> string)
    (publish : string -> json_dict -> publish_outcome)
    (file : gmap string (list queue_item)) (user_id : string) : call :=
  let queue := _load_queue file in
  let user_queue := user_queue_of queue user_id in
  let dummy := {| id := ""; post := []; queued_at := "";
                  retry_count := 0; max_retries := 0 |} in
  let start := {| visited := [];
                  vars := {| queue_item_ := dummy; processed := 0; failed := 0;
                             updated_queue := uq0; file_ := file;
                             published := [] |} |} in
  let error_summary (e : exn) :=
    {| r_processed := 0; r_failed := 0; r_remaining := 0;
       r_error := Some (str e) |} in
  match for_loop unicode_lower publish user_id start user_queue with
  | (ls, rest, Some e) =>
      {| returned := error_summary e;
         file_after := file_ (vars ls);
         in_memory := visited ls ++ rest;
         counted_processed := processed (vars ls);
         counted_failed := failed (vars ls);
         sent := published (vars ls) |}
  | (ls, rest, None) =>
      match updated_queue (vars ls) with
      | None =>
          {| returned := error_summary (NameError "updated_queue");
             file_after := file_ (vars ls);
             in_memory := visited ls ++ rest;
             counted_processed := processed (vars ls);
             counted_failed := failed (vars ls);
             sent := published (vars ls) |}
      | Some q =>
          {| returned := {| r_processed := processed (vars ls);
                            r_failed := failed (vars ls);
                            r_remaining := Z.of_nat (length q);
                            r_error := None |};
             file_after := <[user_id := q]> queue;
             in_memory := visited ls ++ rest;
             counted_processed := processed (vars ls);
             counted_failed := failed (vars ls);
             sent := published (vars ls) |}
      end
  end.

(** [process_offline_queue] as written: no statement of the function
    assigns [updated_queue]. *)
Definition process_offline_queue (unicode_lower : string -> string)
    (publish : string -> json_dict -> publish_outcome)
    (file : gmap string (list queue_item)) (user_id : string) : call :=
  process_offline_queue_from None unicode_lower publish file user_id.

(** An item as [queue_for_publishing] writes it. *)
Definition fresh_item (it : queue_item) : Prop :=
  retry_count it = 0 ∧ max_retries it = 3.

(** Every item of the file is as [queue_for_publishing] wrote it. *)
Definition file_inv (file : gmap string (list queue_item)) : Prop :=
  forall u l, file !! u = Some l -> Forall fresh_item l.

(** [file'] is [file] with items added at the end of [user_id]'s list. *)
Definition file_extends (user_id : string)
    (file file' : gmap string (list queue_item)) : Prop :=
  (forall u, u ≠ user_id -> file' !! u = file !! u) ∧
  exists extra, Forall fresh_item extra ∧
    user_queue_of file' user_id = user_queue_of file user_id ++ extra.

(** [n] calls of [process_offline_queue] in a row: the file after them
    and, call by call, the posts that went out. *)
Fixpoint repeat_calls (unicode_lower : string -> string)
    (publish : string -> json_dict -> publish_outcome)
    (user_id : string) (n : nat) (file : gmap string (list queue_item))
    : gmap string (list queue_item) * list (list json_dict) :=
  match n with
  | O => (file, [])
  | S n' =>
      let c := process_offline_queue unicode_lower publish file user_id in
      let r := repeat_calls unicode_lower publish user_id n' (file_after c) in
      (r.1, sent c :: r.2)
  end.

(** The files the two functions can produce from an empty one. *)
Inductive reachable_file : gmap string (list queue_item) -> Prop :=
| file_empty : reachable_file ∅
| file_queued file user_id p uuid4 utcnow :
    reachable_file file ->
    reachable_file (queue_for_publishing file user_id p uuid4 utcnow).2
| file_processed file unicode_lower publish user_id :
    reachable_file file ->
    reachable_file (file_after (process_offline_queue unicode_lower publish file user_id)).

(** Whether the iteration of an item leaves the loop when the item is
    one [queue_for_publishing] wrote and [updated_queue] is unbound:
    publishing raised a [SocialServiceError], or another error whose
    text names a network problem, and the retry block then reads
    [updated_queue] inside a handler (lines 813-817, 824-827). *)
Definition leaves_loop (unicode_lower : string -> string)
    (publish : string -> json_dict -> publish_outcome)
    (user_id : string) (it : queue_item) : bool :=
  match publish user_id (post it) with
  | PubRaised (SocialServiceError _) => true
  | PubRaised e => is_network_error unicode_lower (str e)
  | _ => false
  end.

(** Whether the post of an item goes out. *)
Definition goes_out (publish : string -> json_dict -> publish_outcome)
    (user_id : string) (it : queue_item) : bool :=
  match publish user_id (post it) with
  | PubOk => true
  | _ => false
  end.

(** The items of a list before the first one at which [stop] holds. *)
Fixpoint before_first {A : Type} (stop : A -> bool) (l : list A) : list A :=
  match l with
  | [] => []
  | x :: l' => if stop x then [] else x :: before_first stop l'
  end.

End Social.

(** ** The order the specification asks of a batch *)

Module Claimed.

(** "ordered by priority descending with ties broken by creation time
    ascending", for a given assignment of priorities to rows: the
    [sync_queue] table has no priority column of its own. *)
Definition priority_then_age (priority : SyncQueue.sync_row -> Z)
    (r1 r2 : SyncQueue.sync_row) : Prop :=
  priority r1 > priority r2 ∨
  (priority r1 = priority r2 ∧ SyncQueue.created_le r1 r2).

#[export] Instance priority_then_age_dec priority :
  RelDecision (priority_then_age priority).
Proof. intros r1 r2. unfold priority_then_age. apply _. Defined.

End Claimed.

(** ** Concrete runs *)

Module Run.
Import SyncQueue.

(** Environments *)
Definition all_up : init_env :=
  {| setup_main := MainReady; setup_redis_ok := true;
     setup_offline_ok := true; test_connections_ok := true |}.

Definition commits : tick_env :=
  {| sqlite_fails_after := None; commit_ok := fun _ => true;
     mark_synced_ok := fun _ => true |}.

Definition commit_fails : tick_env :=
  {| sqlite_fails_after := None; commit_ok := fun _ => false;
     mark_synced_ok := fun _ => true |}.

Definition sqlite_down : tick_env :=
  {| sqlite_fails_after := Some 0%nat; commit_ok := fun _ => true;
     mark_synced_ok := fun _ => true |}.

Definition at_time (t : string) (e : tick_env) : enqueue_env :=
  {| insert_ok := true; now := t; tick := e |}.

(** A manager started on an empty file, all connections up. *)
Definition started : db_state := restart all_up (new_manager empty_disk ∅).

Definition payload : json_dict := [("name", JStr "Ada")].

(** One profile update queued and applied at once. *)
Definition one_synced : db_state :=
  (queue_sync_operation started (at_time "2024-05-01 10:00:00" commits)
     "users" "UPDATE" "u1" payload).2.

(** One profile update whose session never commits: the enqueue makes
    the first attempt, two further runs make the other two. *)
Definition one_failing : db_state :=
  (queue_sync_operation started (at_time "2024-05-01 10:00:00" commit_fails)
     "users" "UPDATE" "u1" payload).2.

Definition one_failed : db_state :=
  _process_sync_queue (_process_sync_queue one_failing commit_fails)
    commit_fails.


(** Two updates of the same table, the later one meant to be urgent. *)
Definition two_pending : db_state :=
  (queue_sync_operation
     (queue_sync_operation started (at_time "2024-05-01 10:00:00" sqlite_down)
        "posts" "UPDATE" "p1" payload).2
     (at_time "2024-05-01 10:00:05" sqlite_down)
     "posts" "UPDATE" "p2" payload).2.

(** Priority 5 for the second row, 1 for every other. *)
Definition urgent_second (r : sync_row) : Z :=
  if decide (id r = 2) then 5 else 1.

(** The row of [one_failed]. *)
Definition failed_row : sync_row :=
  {| id := 1; table_name := "users"; operation := "UPDATE";
     record_id := "u1"; data := payload;
     created_at := "2024-05-01 10:00:00"; retry_count := 3;
     max_retries := 3; status := "failed" |}.

(** The row of [one_synced]. *)
Definition synced_row : sync_row :=
  {| id := 1; table_name := "users"; operation := "UPDATE";
     record_id := "u1"; data := payload;
     created_at := "2024-05-01 10:00:00"; retry_count := 0;
     max_retries := 3; status := "synced" |}.

(** A file left by a process that died while a row was marked
    ['processing'] by hand. *)
Definition stuck_row : sync_row :=
  {| id := 1; table_name := "users"; operation := "UPDATE";
     record_id := "u1"; data := payload;
     created_at := "2024-05-01 10:00:00"; retry_count := 0;
     max_retries := 3; status := "processing" |}.

Definition crashed : db_state :=
  new_manager {| tables_created := true; sync_queue := [stuck_row];
                 next_rowid := 2 |} ∅.

(** The cache with a Redis client configured and nothing stored. *)
Definition cache_with_redis : Cache.cache_state :=
  {| Cache.async_redis_client := true; Cache.redis := ∅;
     Cache.app_cache := ∅ |}.

Definition redis_down : Cache.cache_env :=
  {| Cache.utcnow := 1000; Cache.redis_ok := false; Cache.sqlite_ok := true |}.

Definition redis_up : Cache.cache_env :=
  {| Cache.utcnow := 1000; Cache.redis_ok := true; Cache.sqlite_ok := true |}.

(** An analytics table with one event already synced. *)
Definition synced_event : Analytics.event_row :=
  {| Analytics.id := 1; Analytics.event_type := "page_view";
     Analytics.user_id := "u1"; Analytics.session_id := "s1";
     Analytics.timestamp := "2024-05-01T10:00:00";
     Analytics.properties := []; Analytics.metadata := [];
     Analytics.platform := "web"; Analytics.app_version := "1.0";
     Analytics.offline := true; Analytics.synced := true |}.

Definition analytics_one : Analytics.analytics_db :=
  {| Analytics.analytics_events := [synced_event];
     Analytics.next_rowid := 2 |}.

(** An [OfflineManager] holding one action. *)
Definition mgr_empty : OfflineMgr.mgr_state :=
  {| OfflineMgr.queue := []; OfflineMgr.offline_queue := [];
     OfflineMgr.next_id := 1; OfflineMgr.last_sync := 0 |}.

Definition mgr_one : OfflineMgr.mgr_state :=
  (OfflineMgr.queue_action mgr_empty true "create_post" payload).2.

Definition db_fine (i : nat) : OfflineMgr.iter_env :=
  {| OfflineMgr.delete_ok := true; OfflineMgr.increment_ok := true;
     OfflineMgr.handler_increment_ok := true |}.

Definition delete_denied (i : nat) : OfflineMgr.iter_env :=
  {| OfflineMgr.delete_ok := false; OfflineMgr.increment_ok := true;
     OfflineMgr.handler_increment_ok := true |}.

Definition always_false (a : string) (d : json_dict) : outcome bool :=
  Returned false.

(** A post queue with one post of user alice. *)
Definition hello : json_dict :=
  [("platform", JStr "twitter"); ("content", JStr "hello")].

Definition alice_file : gmap string (list Social.queue_item) :=
  (Social.queue_for_publishing ∅ "alice" hello "q-1" "2024-05-01T10:00:00").2.

Definition publish_ok (u : string) (p : json_dict) : Social.publish_outcome :=
  Social.PubOk.


(** In the runs below every text is ASCII, so the Unicode tables are
    never consulted: any function can stand for them. *)
Definition no_unicode_lower (s : string) : string := s.

(** A second post of alice, queued behind the first. *)
Definition goodbye : json_dict :=
  [("platform", JStr "twitter"); ("content", JStr "goodbye")].

Definition alice_two : gmap string (list Social.queue_item) :=
  (Social.queue_for_publishing alice_file "alice" goodbye "q-2"
     "2024-05-01T10:05:00").2.

(** Publishing that meets a timeout for the first post, raised as
    [publish_to_platforms] re-raises it at line 632, and succeeds for
    every other. *)
Definition first_post_times_out (u : string) (p : json_dict)
    : Social.publish_outcome :=
  if decide (p = hello)
  then Social.PubRaised (OtherError "Timeout reading from socket")
  else Social.PubOk.

End Run.

(** ** [DatabaseManager]: deleting and purging cache entries (database.py) *)

Module CacheOps.
Import Cache.

(** [_offline_cache_delete] (lines 399-409) *)
Definition _offline_cache_delete (st : cache_state) (env : cache_env)
    (key : string) : bool * cache_state :=
  if sqlite_ok env then
    (true,
     {| async_redis_client := async_redis_client st; redis := redis st;
        app_cache := delete key (app_cache st) |})
  else (false, st).

(** [cache_delete] (lines 352-362) *)
Definition cache_delete (st : cache_state) (env : cache_env) (key : string)
    : bool * cache_state :=
  if async_redis_client st then
    if redis_ok env then
      (true,
       {| async_redis_client := async_redis_client st;
          redis := delete key (redis st);
          app_cache := app_cache st |})
    else (false, st)
  else _offline_cache_delete st env key.

(** [cleanup_expired_cache] (lines 494-502):
    [DELETE FROM app_cache WHERE expires_at < ?] at the clock of the
    call; a SQLite error is logged and nothing is deleted. *)
Definition cleanup_expired_cache (st : cache_state) (env : cache_env)
    : cache_state :=
  if sqlite_ok env then
    {| async_redis_client := async_redis_client st; redis := redis st;
       app_cache :=
         filter (fun kv => ¬ expires_at kv.2 < utcnow env) (app_cache st) |}
  else st.

End CacheOps.

(** ** [DatabaseManager]: statistics and health report (database.py) *)

Module Monitor.
Import SyncQueue.

(** The dictionary [get_database_stats] returns *)
Record stats : Type := {
  stats_is_offline_mode : bool;
  pending_sync_operations : nat;
  failed_sync_operations : nat;
  cache_entries : nat;
  connection_pool_size : Z
}.

(** [SELECT COUNT ( * ) FROM sync_queue WHERE status = ?] *)
Definition count_status (s : string) (t : list sync_row) : nat :=
  length (filter (fun r => status r = s) t).

(** [SELECT COUNT ( * ) FROM app_cache WHERE expires_at > ?] *)
Definition count_live (now : Z) (c : gmap string Cache.cache_row) : nat :=
  size (filter (fun kv => Cache.expires_at kv.2 > now) c).

(** [get_database_stats] (lines 504-534). The three counts are read one
    after the other inside one [try]; with [sqlite_fails_at = Some j]
    only the first [j] queries return (the connect raising is [j = 0]):
    the counts already read stay, the others keep their initial 0. The
    first query also raises when the tables are missing. *)
Definition get_database_stats (st : db_state) (cst : Cache.cache_state)
    (pool_size : Z) (now : Z) (sqlite_fails_at : option nat) : stats :=
  let reached (k : nat) : bool :=
    tables_created (offline st) &&
    match sqlite_fails_at with
    | None => true
    | Some j => bool_decide (k < j)%nat
    end in
  {| stats_is_offline_mode := is_offline_mode st;
     pending_sync_operations :=
       if reached 0%nat then count_status "pending" (sync_queue (offline st))
       else 0%nat;
     failed_sync_operations :=
       if reached 1%nat then count_status "failed" (sync_queue (offline st))
       else 0%nat;
     cache_entries :=
       if reached 2%nat then count_live now (Cache.app_cache cst) else 0%nat;
     connection_pool_size := pool_size |}.

(** The dictionary [health_check] returns; [error] is present when a
    probe raised. *)
Record health : Type := {
  h_status : string;
  h_main_db : bool;
  h_redis : bool;
  h_offline_db : bool;
  h_is_offline_mode : bool;
  h_error : option string
}.

(** What the probes of [health_check] meet: whether the [SELECT 1] on
    the main database returns, whether the session then commits,
    whether Redis answers the ping, whether SQLite answers. *)
Record probe_env : Type := {
  select_ok : bool;
  session_commit_ok : bool;
  ping_ok : bool;
  sqlite_probe_ok : bool
}.

(** [health_check] (lines 536-569). The probes run in order inside one
    [try]; the first one that raises ends them. [main_db] is set inside
    the session block, before the commit that closes it. *)
Definition health_check (st : db_state) (cst : Cache.cache_state)
    (env : probe_env) : health :=
  let unhealthy (main redis_ : bool) (e : exn) : health :=
    {| h_status := "unhealthy"; h_main_db := main; h_redis := redis_;
       h_offline_db := false; h_is_offline_mode := is_offline_mode st;
       h_error := Some (str e) |} in
  let after_main (main : bool) : health :=
    if Cache.async_redis_client cst && negb (ping_ok env) then
      unhealthy main false (OtherError "redis ping failed")
    else if negb (sqlite_probe_ok env) then
      unhealthy main (Cache.async_redis_client cst)
        (OtherError "sqlite probe failed")
    else
      {| h_status := "healthy"; h_main_db := main;
         h_redis := Cache.async_redis_client cst; h_offline_db := true;
         h_is_offline_mode := is_offline_mode st; h_error := None |} in
  if is_offline_mode st then after_main false
  else if negb (async_session_factory st) then
    unhealthy false false (RuntimeError "Database not initialized")
  else if negb (select_ok env) then
    unhealthy false false (OtherError "select failed")
  else if negb (session_commit_ok env) then
    unhealthy true false (OtherError "commit failed")
  else after_main true.

(** The steps of a manager that stays up: enqueues and runs of
    [_process_sync_queue], no restart. *)
Inductive queue_steps : db_state -> db_state -> Prop :=
| qsteps_refl st : queue_steps st st
| qsteps_enqueue st st' env tn op rid d :
    queue_steps st st' ->
    queue_steps st (queue_sync_operation st' env tn op rid d).2
| qsteps_tick st st' env :
    queue_steps st st' -> queue_steps st (_process_sync_queue st' env).

(** What identifies a queued operation: the columns of its row that no
    statement of the code updates. *)
Definition identity_of (r : sync_row)
    : Z * string * string * string * json_dict * string :=
  (id r, table_name r, operation r, record_id r, data r, created_at r).

End Monitor.

(** ** Replaying the offline analytics events (api/analytics.py) *)

Module AnalyticsSync.
Import Analytics.

#[export] Instance event_row_eq_dec : EqDecision event_row.
Proof. solve_decision. Defined.

(** What [async with] can be handed: an object with [__aenter__] and
    [__aexit__], such as a function under [@asynccontextmanager]
    returns, or the async generator a bare [async def] with a [yield]
    returns. *)
Inductive session_object : Type :=
| AsyncContextManager
| AsyncGenerator.

(** [get_db_session] (database.py, lines 596-599): an [async def] with a
    [yield] and no decorator. *)
Definition get_db_session : session_object := AsyncGenerator.

(** [async with obj as db: pass]; [enter_ok] tells whether a context
    manager opens and commits. *)
Definition async_with_pass (obj : session_object) (enter_ok : bool)
    : outcome unit :=
  match obj with
  | AsyncGenerator =>
      Raised (OtherError
        "'async_generator' object does not support the asynchronous context manager protocol")
  | AsyncContextManager =>
      if enter_ok then Returned ()
      else Raised (OtherError "Database is in offline mode")
  end.

(** What a batch meets: whether the stored columns of an event parse
    back (lines 872-885), whether a session opens, whether Firebase takes
    an event ([_send_to_firebase], lines 541-554, logs and swallows a
    failure), whether the final UPDATE returns. *)
Record batch_env : Type := {
  parse_ok : event_row -> bool;
  enter_ok : bool;
  send_ok : event_row -> bool;
  mark_ok : bool
}.

(** What a batch leaves: the table, the events Firebase took, and the
    exception the handler of line 901 logged, if any. *)
Record batch_result : Type := {
  db_after : analytics_db;
  sent : list event_row;
  logged : option exn
}.

(** [_process_batch_sync] (lines 866-902) with the session object
    [session] in the place of [get_db_session()]. *)
Definition process_batch_sync_with (session : session_object)
    (dbs : analytics_db) (env : batch_env) (events : list event_row)
    : batch_result :=
  let event_ids := id <$> events in
  if forallb (parse_ok env) events then
    match async_with_pass session (enter_ok env) with
    | Raised e => {| db_after := dbs; sent := []; logged := Some e |}
    | Returned _ =>
        {| db_after := (mark_events_synced dbs (mark_ok env) event_ids).2;
           sent := filter (fun e => send_ok env e = true) events;
           logged := None |}
    end
  else {| db_after := dbs; sent := [];
          logged := Some (OtherError "invalid stored event") |}.

(** [_process_batch_sync] as written *)
Definition _process_batch_sync (dbs : analytics_db) (env : batch_env)
    (events : list event_row) : batch_result :=
  process_batch_sync_with get_db_session dbs env events.

(** One turn of the loop of [periodic_offline_sync] (lines 1163-1171),
    after its sleep: the default limit of [get_unsynced_events] is 100;
    [sqlite_ok] tells whether that SELECT returns. *)
Definition periodic_turn (dbs : analytics_db) (sqlite_ok : bool)
    (env : batch_env) : batch_result :=
  match get_unsynced_events dbs sqlite_ok 100 with
  | [] => {| db_after := dbs; sent := []; logged := None |}
  | unsynced => _process_batch_sync dbs env unsynced
  end.

(** [n] turns, turn [i] meeting [envs i]: the table they leave. *)
Fixpoint periodic_turns (envs : nat -> bool * batch_env) (n : nat)
    (dbs : analytics_db) : analytics_db :=
  match n with
  | O => dbs
  | S n' =>
      db_after (periodic_turn (periodic_turns envs n' dbs)
                  (envs n').1 (envs n').2)
  end.

(** Three events, the oldest stored last. *)
Definition event_at (i : Z) (ts : string) (done : bool) : event_row :=
  {| id := i; event_type := "page_view"; user_id := "u1";
     session_id := "s1"; timestamp := ts; properties := []; metadata := [];
     platform := "web"; app_version := "1.0"; offline := true;
     synced := done |}.

Definition three_events : analytics_db :=
  {| analytics_events :=
       [ event_at 1 "2024-05-01T10:00:02" false;
         event_at 2 "2024-05-01T10:00:03" false;
         event_at 3 "2024-05-01T10:00:01" false ];
     next_rowid := 4 |}.

Definition all_fine : batch_env :=
  {| parse_ok := fun _ => true; enter_ok := true; send_ok := fun _ => true;
     mark_ok := true |}.

End AnalyticsSync.

(** ** Further concrete runs *)

Module MoreRuns.
Import SyncQueue Run.

(** A start on a new file in which only the connection test fails: the
    tables exist and the manager is in offline mode. *)
Definition test_fails : init_env :=
  {| setup_main := MainReady; setup_redis_ok := true;
     setup_offline_ok := true; test_connections_ok := false |}.

Definition started_offline : db_state :=
  restart test_fails (new_manager empty_disk ∅).

(** One update queued while offline, then a run of the replay. *)
Definition queued_offline : db_state :=
  _process_sync_queue
    (queue_sync_operation started_offline
       (at_time "2024-05-01 10:00:00" commits) "users" "UPDATE" "u1" payload).2
    commits.

(** The row of [queued_offline]. *)
Definition pending_row : sync_row :=
  {| id := 1; table_name := "users"; operation := "UPDATE";
     record_id := "u1"; data := payload;
     created_at := "2024-05-01 10:00:00"; retry_count := 0;
     max_retries := 3; status := "pending" |}.

(** The cache without a Redis client, and the clock. *)
Definition cache_local : Cache.cache_state :=
  {| Cache.async_redis_client := false; Cache.redis := ∅;
     Cache.app_cache := ∅ |}.

Definition clock (t : Z) : Cache.cache_env :=
  {| Cache.utcnow := t; Cache.redis_ok := true; Cache.sqlite_ok := true |}.

End MoreRuns.

(** ** What a drain of [OfflineManager] completes (utils.py) *)

Module OfflineLog.
Import OfflineMgr.

(** Whether an iteration is done with the action it popped:
    [_execute_action] returned true and the DELETE of lines 893-896 went
    through. *)
Definition completes (execute : string -> json_dict -> outcome bool)
    (env : iter_env) (a : string) (d : json_dict) : bool :=
  match execute a d with
  | Returned true => delete_ok env
  | _ => false
  end.

(** The actions the loop of [process_queue] (lines 884-904) completes, in
    order, along the iterations of [process_queue_from]. *)
Fixpoint completed (execute : string -> json_dict -> outcome bool)
    (envs : nat -> iter_env) (fuel i : nat) (st : mgr_state)
    : list (string * json_dict) :=
  match fuel with
  | O => []
  | S fuel' =>
      match queue st with
      | [] => []
      | (a, d) :: q =>
          match process_one execute (envs i) (with_memory_queue st q) a d with
          | (Returned _, st') =>
              (if completes execute (envs i) a d then [(a, d)] else [])
                ++ completed execute envs fuel' (S i) st'
          | (Raised _, _) => []
          end
      end
  end.

(** The manager a run of the loop leaves behind. *)
Definition final (r : drain) : mgr_state :=
  match r with
  | Finished st => st
  | Escaped _ st => st
  | StillRunning st => st
  end.

End OfflineLog.

(** ** The sliding-window decorator [rate_limit] (utils.py) *)

Module RateLimit.

(** Lines 343-344: pop from the left while the head is older than the
    cutoff. *)
Fixpoint purge (cutoff : Z) (user_requests : list Z) : list Z :=
  match user_requests with
  | t :: rest => if decide (t < cutoff) then purge cutoff rest
                 else user_requests
  | [] => []
  end.

(** [wrapper] (lines 335-356) for the key [user_id] computed at line 337
    and the clock reading [now]; [func] is what the decorated function
    does when it is called. [rl] is [rate_limiter] (line 86), a
    [defaultdict] of deques: for each key the instants of the requests
    let through, oldest first. Instants are readings of [time.time()],
    taken in whole units of the clock; [window] is in the same unit.
    Reading [rate_limiter[user_id]] creates the deque, and the purge
    changes it in place, also when the request is refused. The refusal
    of line 348 names [HTTPException], which utils.py does not import:
    what it raises is the [NameError] for that name. *)
Definition wrapper {A : Type} (max_requests window : Z)
    (rl : gmap string (list Z)) (user_id : string) (now : Z)
    (func : outcome A) : outcome A * gmap string (list Z) :=
  let user_requests := purge (now - window) (default [] (rl !! user_id)) in
  if decide (max_requests <= Z.of_nat (length user_requests))
  then (Raised (NameError "HTTPException"),
        <[user_id := user_requests]> rl)
  else (func, <[user_id := user_requests ++ [now]]> rl).

(** A sequence of requests, each with its key and the clock reading of
    its call, served one after the other: the requests for which the
    decorated function was called, and the limiter left. *)
Fixpoint serve (max_requests window : Z) (rl : gmap string (list Z))
    (calls : list (string * Z)) : list (string * Z) * gmap string (list Z) :=
  match calls with
  | [] => ([], rl)
  | (user_id, now) :: rest =>
      match wrapper max_requests window rl user_id now (Returned ()) with
      | (Returned _, rl') =>
          let '(let_through, rl'') := serve max_requests window rl' rest in
          ((user_id, now) :: let_through, rl'')
      | (Raised _, rl') => serve max_requests window rl' rest
      end
  end.

(** The instants of the requests of [user_id] among [calls] *)
Definition times_of (user_id : string) (calls : list (string * Z)) : list Z :=
  (filter (fun c => c.1 = user_id) calls).*2.

(** The requests of [user_id] among [calls] that fall in the window
    ending at [t], both ends included. *)
Definition in_window (window : Z) (user_id : string) (t : Z)
    (calls : list (string * Z)) : list (string * Z) :=
  filter (fun c => c.1 = user_id ∧ t - window <= c.2 ∧ c.2 <= t) calls.

End RateLimit.

(** ** Posts as objects, and the queue file (services/social_service.py) *)

Module PostStore.

(** What a field of a [SocialMediaPost] holds: a value [json.dumps]
    writes, a member of an [Enum] class with its value, or a [datetime]
    with its ISO text. [PlatformType] and [PostStatus] (lines 38-55)
    derive from [Enum] alone, so [json.dumps] rejects their members, as
    it rejects a [datetime]. *)
Inductive py_value : Type :=
| PJson (v : json_value)
| PEnum (class value : string)
| PDatetime (isoformat : string).

(** [SocialMediaPost] (lines 57-70); the dataclass does not check the
    annotations of its fields. *)
Record social_media_post : Type := {
  platform : py_value;
  content : py_value;
  media_urls : py_value;
  tags : py_value;
  location : py_value;
  schedule_time : py_value;
  post_id : py_value;
  status : py_value;
  analytics : py_value
}.

(** The default of [status] (line 66) *)
Definition DRAFT : py_value := PEnum "PostStatus" "draft".

(** [to_dict] (lines 69-70): [asdict] keeps the order of the fields and
    copies an Enum member or a datetime as it is. *)
Definition to_dict (p : social_media_post) : list (string * py_value) :=
  [("platform", platform p); ("content", content p);
   ("media_urls", media_urls p); ("tags", tags p);
   ("location", location p); ("schedule_time", schedule_time p);
   ("post_id", post_id p); ("status", status p);
   ("analytics", analytics p)].

(** [json.dumps] on one value and on a dictionary: [None] stands for the
    [TypeError] it raises. *)
Definition dumps_value (v : py_value) : option json_value :=
  match v with
  | PJson j => Some j
  | PEnum _ _ => None
  | PDatetime _ => None
  end.

Fixpoint dumps (d : list (string * py_value)) : option json_dict :=
  match d with
  | [] => Some []
  | (k, v) :: rest =>
      match dumps_value v, dumps rest with
      | Some j, Some rest' => Some ((k, j) :: rest')
      | _, _ => None
      end
  end.

Definition TypeError : exn :=
  OtherError "TypeError: Object is not JSON serializable".

Definition AttributeError : exn :=
  OtherError "AttributeError: object has no such attribute".

(** [queue_for_publishing] (lines 124-150) on a post object. The items
    read from the file are JSON already, so [json.dumps(queue)] (line
    182) raises exactly when the new post holds a value it rejects. By
    then [aiofiles.open(self.queue_file, 'w')] (line 181) has emptied the
    file, and [_load_queue] reads an empty file as the empty dictionary
    (lines 176-177). The handler of lines 148-150 raises again. *)
Definition queue_for_publishing (file : gmap string (list Social.queue_item))
    (user_id : string) (p : social_media_post) (uuid4 utcnow : string)
    : outcome string * gmap string (list Social.queue_item) :=
  match dumps (to_dict p) with
  | Some d =>
      (Returned uuid4,
       (Social.queue_for_publishing file user_id d uuid4 utcnow).2)
  | None => (Raised TypeError, ∅)
  end.

(** [p.value] and [post.schedule_time.isoformat()]: [None] stands for the
    [AttributeError] on a value without the attribute. *)
Definition value_of (v : py_value) : option string :=
  match v with
  | PEnum _ value => Some value
  | _ => None
  end.

Definition isoformat_of (v : py_value) : option string :=
  match v with
  | PDatetime iso => Some iso
  | _ => None
  end.

(** What [schedule_post] meets: whether [self.redis_client] is set,
    whether its [setex] returns, and the two identifiers and the clock
    text drawn. *)
Record schedule_env : Type := {
  redis_client : bool;
  setex_ok : bool;
  schedule_id : string;
  queue_id : string;
  utcnow : string
}.

(** [schedule_post] (lines 634-667): the dictionary [scheduled_data] is
    built field by field (lines 641-649), serialised for Redis when there
    is a client (lines 652-657), then the post goes to the queue file
    (line 660). The handler of lines 665-667 raises again. *)
Definition schedule_post (env : schedule_env)
    (file : gmap string (list Social.queue_item)) (user_id : string)
    (p : social_media_post) (platforms : list py_value)
    : outcome string * gmap string (list Social.queue_item) :=
  match mapM value_of platforms with
  | None => (Raised AttributeError, file)
  | Some _ =>
      match isoformat_of (schedule_time p) with
      | None => (Raised AttributeError, file)
      | Some _ =>
          let cached : outcome unit :=
            if redis_client env then
              match dumps (to_dict p) with
              | None => Raised TypeError
              | Some _ =>
                  if setex_ok env then Returned ()
                  else Raised (ConnectionError "redis")
              end
            else Returned () in
          match cached with
          | Raised e => (Raised e, file)
          | Returned _ =>
              match queue_for_publishing file user_id p (queue_id env)
                      (utcnow env) with
              | (Returned _, file') => (Returned (schedule_id env), file')
              | (Raised e, file') => (Raised e, file')
              end
          end
      end
  end.

(** [d[k] = v] on a dictionary kept in insertion order: a present key
    keeps its place, a new one goes last. *)
Fixpoint dict_set {V : Type} (k : string) (v : V) (d : list (string * V))
    : list (string * V) :=
  match d with
  | [] => [(k, v)]
  | (k0, v0) :: rest =>
      if decide (k0 = k) then (k, v) :: rest
      else (k0, v0) :: dict_set k v rest
  end.

(** [_load_drafts] (lines 152-161) on a file holding [file]: from user
    id to that user's drafts by draft id. A missing or unreadable file
    reads as the empty dictionary. *)
Definition _load_drafts (file : gmap string (list (string * json_dict)))
    : gmap string (list (string * json_dict)) := file.

(** [save_draft] (lines 95-117), given the uuid and the two clock texts
    it draws. [_save_drafts] (lines 163-166) opens the file for writing
    before [json.dumps] runs, as [_save_queue] does. *)
Definition save_draft (file : gmap string (list (string * json_dict)))
    (user_id : string) (p : social_media_post)
    (uuid4 created_at updated_at : string)
    : outcome string * gmap string (list (string * json_dict)) :=
  let drafts := _load_drafts file in
  let draft := to_dict p ++ [("created_at", PJson (JStr created_at));
                             ("updated_at", PJson (JStr updated_at))] in
  match dumps draft with
  | Some d =>
      (Returned uuid4,
       <[user_id := dict_set uuid4 d (default [] (drafts !! user_id))]> drafts)
  | None => (Raised TypeError, ∅)
  end.

(** [get_user_drafts] (lines 119-122) *)
Definition get_user_drafts (file : gmap string (list (string * json_dict)))
    (user_id : string) : list json_dict :=
  (default [] (_load_drafts file !! user_id)).*2.

End PostStore.

(** ** [AdvancedAnalyticsService.track_event] (api/analytics.py) *)

Module Tracking.
Import Analytics AnalyticsSync.

(** The fields of an [AnalyticsRequest] that [track_event] reads *)
Record analytics_request : Type := {
  r_event_type : string;
  r_properties : json_dict;
  r_metadata : json_dict;
  r_platform : string;
  r_app_version : string
}.

(** The clock reading of line 413: its ISO text, and the decimal text of
    its whole seconds, [int(event.timestamp.timestamp())]. *)
Record instant : Type := {
  isoformat : string;
  epoch_seconds : string
}.

(** The background tasks of lines 426-435 *)
Inductive task : Type :=
| StoreRealtimeEvent (event : event_row)
| UpdateUserPatterns (user_id : string) (event : event_row)
| StoreDatabaseEvent (event : event_row)
| SendToFirebase (event : event_row).

(** What a call leaves: the reply [{"status": ..., "event_id": ...}],
    the table and the tasks handed to [background_tasks]. *)
Record tracked : Type := {
  reply : outcome (string * string);
  table_after : analytics_db;
  tasks : list task
}.

(** [track_event] (lines 399-444) on a service object; [redis_client]
    tells whether [self.redis_client] is set. The value [store_event]
    returns is not read (line 422). No step of the [try] block raises: [store_event]
    has its own handler and [add_task] only records the task. The event
    object has no [id]; the field is set to 0 here and [store_event]
    ignores it. *)
Definition track_event (redis_client : bool) (dbs : analytics_db)
    (sqlite_ok : bool) (user_id session_id : string)
    (event_request : analytics_request) (now : instant) : tracked :=
  let event :=
    {| id := 0; event_type := r_event_type event_request;
       user_id := user_id; session_id := session_id;
       timestamp := isoformat now;
       properties := r_properties event_request;
       metadata := r_metadata event_request;
       platform := r_platform event_request;
       app_version := r_app_version event_request;
       offline := negb redis_client; synced := false |} in
  let dbs' := (store_event dbs sqlite_ok event).2 in
  {| reply := Returned ("tracked", user_id +:+ "_" +:+ epoch_seconds now);
     table_after := dbs';
     tasks := (if redis_client then [StoreRealtimeEvent event] else [])
                ++ [UpdateUserPatterns user_id event;
                    StoreDatabaseEvent event; SendToFirebase event] |}.

(** What happens to the table of a service over time: an event is
    tracked, with or without a Redis client set at that time, or the
    periodic sync takes a turn. *)
Inductive service_op : Type :=
| Track (redis_client sqlite_ok : bool) (user_id session_id : string)
    (event_request : analytics_request) (now : instant)
| SyncTurn (sqlite_ok : bool) (env : batch_env).

Definition apply_op (dbs : analytics_db) (o : service_op) : analytics_db :=
  match o with
  | Track redis_client sqlite_ok user_id session_id event_request now =>
      table_after (track_event redis_client dbs sqlite_ok
                     user_id session_id event_request now)
  | SyncTurn sqlite_ok env => db_after (periodic_turn dbs sqlite_ok env)
  end.

Definition run_ops (dbs : analytics_db) (ops : list service_op)
    : analytics_db :=
  foldl apply_op dbs ops.

(** The events tracked while SQLite answered *)
Definition stores (o : service_op) : bool :=
  match o with
  | Track _ sqlite_ok _ _ _ _ => sqlite_ok
  | SyncTurn _ _ => false
  end.

Definition stored_tracks (ops : list service_op) : nat :=
  length (filter (fun o => stores o = true) ops).

End Tracking.

(** ** Concrete runs of the drain and of the rate limiter *)

Module FurtherRuns.
Import Run.

(** A database on which the first UPDATE of an attempt counter raises
    and the UPDATE of the handler goes through. *)
Definition counter_denied (i : nat) : OfflineMgr.iter_env :=
  {| OfflineMgr.delete_ok := true; OfflineMgr.increment_ok := false;
     OfflineMgr.handler_increment_ok := true |}.

(** A post as the dataclass builds it from a platform and a text: the
    status is the default member of [PostStatus]. *)
Definition typed_post : PostStore.social_media_post :=
  {| PostStore.platform := PostStore.PEnum "PlatformType" "twitter";
     PostStore.content := PostStore.PJson (JStr "hello");
     PostStore.media_urls := PostStore.PJson JNull;
     PostStore.tags := PostStore.PJson JNull;
     PostStore.location := PostStore.PJson JNull;
     PostStore.schedule_time := PostStore.PJson JNull;
     PostStore.post_id := PostStore.PJson JNull;
     PostStore.status := PostStore.DRAFT;
     PostStore.analytics := PostStore.PJson JNull |}.

(** A post as [process_offline_queue] rebuilds it from the file (line
    797): every field is what [json.loads] gave. *)
Definition loaded_post : PostStore.social_media_post :=
  {| PostStore.platform := PostStore.PJson (JStr "twitter");
     PostStore.content := PostStore.PJson (JStr "hello");
     PostStore.media_urls := PostStore.PJson JNull;
     PostStore.tags := PostStore.PJson JNull;
     PostStore.location := PostStore.PJson JNull;
     PostStore.schedule_time := PostStore.PJson JNull;
     PostStore.post_id := PostStore.PJson JNull;
     PostStore.status := PostStore.PJson (JStr "draft");
     PostStore.analytics := PostStore.PJson JNull |}.

(** An [OfflineManager] whose deque holds one action, and whose table
    holds the row of that action with its keys written in the other
    order, and the row of another action. *)
Definition two_keys : json_dict := [("x", JInt 1); ("y", JInt 2)].

Definition two_keys_swapped : json_dict := [("y", JInt 2); ("x", JInt 1)].

Definition mgr_reordered : OfflineMgr.mgr_state :=
  {| OfflineMgr.queue := [("create_post", two_keys)];
     OfflineMgr.offline_queue :=
       [ {| OfflineMgr.id := 1; OfflineMgr.action := "create_post";
            OfflineMgr.data := two_keys_swapped; OfflineMgr.attempts := 0 |};
         {| OfflineMgr.id := 2; OfflineMgr.action := "like";
            OfflineMgr.data := two_keys; OfflineMgr.attempts := 0 |} ];
     OfflineMgr.next_id := 3; OfflineMgr.last_sync := 0 |}.

(** Three requests of one user and one of another, by a clock that does
    not go back. *)
Definition four_calls : list (string * Z) :=
  [("alice", 10); ("alice", 20); ("bob", 25); ("alice", 30)].

End FurtherRuns.

(** * Properties of the sync queue of [DatabaseManager] *)

Section SyncQueueFacts.
Import SyncQueue.

Lemma set_status_id s r : id (set_status s r) = id r.
Proof. reflexivity. Qed.

Lemma incr_retry_count_id r : id (incr_retry_count r) = id r.
Proof. reflexivity. Qed.

Lemma tick_row_id st env r : id (tick_row st env r) = id r.
Proof. unfold tick_row, apply_row. repeat case_match; reflexivity. Qed.

(** Rows of a keyed table are determined by their id. *)
Lemma keyed_table_inj (t : list sync_row) r1 r2 :
  NoDup (id <$> t) -> r1 ∈ t -> r2 ∈ t -> id r1 = id r2 -> r1 = r2.
Proof.
  induction t as [|x t IH]; intros Hnd H1 H2 Heq.
  - by apply elem_of_nil in H1.
  - rewrite fmap_cons in Hnd. apply NoDup_cons in Hnd as [Hx Hnd].
    apply elem_of_cons in H1 as [->|H1]; apply elem_of_cons in H2 as [->|H2];
      auto.
    + exfalso. apply Hx. rewrite Heq. by apply list_elem_of_fmap_2.
    + exfalso. apply Hx. rewrite <- Heq. by apply list_elem_of_fmap_2.
Qed.

(** [_execute_sync_operation] writes nothing: it returns the main
    database it was given, or raises. *)
Lemma execute_sync_operation_spec st c dbv row :
  _execute_sync_operation st c dbv row =
    if negb (is_offline_mode st) && async_session_factory st && c
    then Returned dbv
    else if is_offline_mode st
         then Raised (ConnectionError "Database is in offline mode")
         else if negb (async_session_factory st)
              then Raised (RuntimeError "Database not initialized")
              else Raised (OtherError "commit failed").
Proof.
  unfold _execute_sync_operation, get_async_session.
  destruct (is_offline_mode st), (async_session_factory st), c; simpl;
    repeat case_decide; reflexivity.
Qed.

Lemma update_where_id_compose f g rid t :
  (forall r, id (f r) = id r) ->
  update_where_id g rid (update_where_id f rid t) =
  update_where_id (fun r => g (f r)) rid t.
Proof.
  intros Hf. unfold update_where_id. rewrite <- list_fmap_compose.
  apply list_fmap_ext. intros i r _. simpl.
  pose proof (Hf r) as Hr.
  destruct (decide (id r = rid)); repeat case_decide; congruence.
Qed.

Lemma apply_row_id st env row r : id (apply_row st env row r) = id r.
Proof. unfold apply_row. repeat case_match; reflexivity. Qed.

Lemma sync_one_spec st env acc row :
  sync_one st env acc row =
    {| tbl := update_where_id (apply_row st env row) (id row) (tbl acc);
       db := db acc;
       applied := if exec_returns st env row then applied acc ++ [row]
                  else applied acc |}.
Proof.
  unfold sync_one, apply_row, exec_ok, exec_returns.
  rewrite execute_sync_operation_spec.
  destruct (negb (is_offline_mode st) && async_session_factory st
            && commit_ok env (id row)) eqn:E; simpl.
  - destruct (mark_synced_ok env (id row)); [done|].
    case_decide; f_equal; by rewrite ?update_where_id_compose.
  - repeat case_match; try discriminate; simplify_eq; f_equal;
      by rewrite ?update_where_id_compose.
Qed.

(** The loop over a batch of distinct rows of a keyed table: each
    fetched row is rewritten by [tick_row], every other row is left
    alone, and the main database is the one the loop started with. *)
Lemma sync_loop_spec st env rows :
  NoDup (id <$> sync_queue (offline st)) ->
  NoDup (id <$> rows) ->
  (forall r, r ∈ rows -> r ∈ sync_queue (offline st)) ->
  sync_loop st env rows =
    {| tbl := (fun r => if decide (r ∈ rows) then tick_row st env r else r)
                <$> sync_queue (offline st);
       db := main_db st;
       applied := filter (fun r => exec_returns st env r = true) rows |}.
Proof.
  intros Hkey. unfold sync_loop.
  induction rows as [|x rows IH] using rev_ind; intros Hnd Hin.
  - simpl. f_equal. rewrite <- (list_fmap_id (sync_queue (offline st))) at 1.
    by apply list_fmap_ext.
  - rewrite foldl_app. simpl. rewrite fmap_app in Hnd.
    apply NoDup_app in Hnd as (Hnd & Hx & _).
    rewrite IH; [|done|intros r Hr; apply Hin, elem_of_app; by left].
    rewrite sync_one_spec. simpl. f_equal.
    + unfold update_where_id. rewrite <- list_fmap_compose.
      apply list_fmap_ext. intros i r Hr%list_elem_of_lookup_2. simpl.
      assert (x ∈ sync_queue (offline st)) as Hxin.
      { apply Hin, elem_of_app. right. by left. }
      destruct (decide (r ∈ rows)) as [Hrows|Hrows].
      * rewrite tick_row_id.
        assert (id r <> id x) as Hne.
        { intros E. apply (Hx (id r)); [by apply list_elem_of_fmap_2|].
          rewrite E. apply list_elem_of_singleton. reflexivity. }
        rewrite decide_False by done.
        rewrite decide_True by (apply elem_of_app; by left). done.
      * destruct (decide (id r = id x)) as [E|E].
        -- assert (r = x) as -> by eauto using keyed_table_inj.
           rewrite decide_True by (apply elem_of_app; right; by left).
           reflexivity.
        -- rewrite decide_False; [done|].
           intros [?|Hs%list_elem_of_singleton]%elem_of_app; [done|].
           by subst.
    + rewrite filter_app, filter_cons, filter_nil.
      destruct (exec_returns st env x); [by rewrite decide_True|].
      rewrite decide_False by done. by rewrite app_nil_r.
Qed.

Lemma sync_loop_db st env rows : db (sync_loop st env rows) = main_db st.
Proof.
  unfold sync_loop. induction rows as [|x rows IH] using rev_ind; [done|].
  rewrite foldl_app. simpl. by rewrite sync_one_spec.
Qed.

Lemma select_pending_perm t : select_pending t ≡ₚ filter eligible t.
Proof. apply merge_sort_Permutation. Qed.

Lemma elem_of_select_pending t r :
  r ∈ select_pending t <-> eligible r ∧ r ∈ t.
Proof. rewrite select_pending_perm. apply list_elem_of_filter. Qed.

Lemma select_pending_key t :
  NoDup (id <$> t) -> NoDup (id <$> select_pending t).
Proof.
  intros Hnd. rewrite select_pending_perm.
  eapply sublist_NoDup; [exact Hnd|apply fmap_sublist, sublist_filter].
Qed.

Lemma process_sync_queue_table st env :
  NoDup (id <$> sync_queue (offline st)) ->
  sync_queue (offline (_process_sync_queue st env)) =
    if is_offline_mode st then sync_queue (offline st)
    else if negb (tables_created (offline st)) then sync_queue (offline st)
    else match sqlite_fails_after env with
         | None => tick_table st env (sync_queue (offline st))
         | Some _ => sync_queue (offline st)
         end.
Proof.
  intros Hkey. unfold _process_sync_queue, process_sync_queue_traced.
  destruct (is_offline_mode st); [done|].
  destruct (tables_created (offline st)); [|done].
  destruct (sqlite_fails_after env); [done|]. simpl.
  rewrite sync_loop_spec; auto using select_pending_key.
  - simpl. unfold tick_table, after_tick. apply list_fmap_ext. intros i r Hr%list_elem_of_lookup_2.
    destruct (decide (eligible r)).
    + rewrite decide_True; [done|]. by apply elem_of_select_pending.
    + rewrite decide_False; [done|]. by intros [? _]%elem_of_select_pending.
  - by intros r [_ ?]%elem_of_select_pending.
Qed.

(** A run of [_process_sync_queue] touches nothing but the rows. *)
Lemma process_sync_queue_frame st env :
  is_offline_mode (_process_sync_queue st env) = is_offline_mode st ∧
  async_session_factory (_process_sync_queue st env) = async_session_factory st ∧
  tables_created (offline (_process_sync_queue st env)) =
    tables_created (offline st) ∧
  next_rowid (offline (_process_sync_queue st env)) = next_rowid (offline st) ∧
  main_db (_process_sync_queue st env) = main_db st.
Proof.
  unfold _process_sync_queue, process_sync_queue_traced.
  destruct (is_offline_mode st) eqn:E; simpl; [by rewrite E|].
  destruct (tables_created (offline st)) eqn:C; simpl; [|by rewrite E, C].
  destruct (sqlite_fails_after env); simpl; by rewrite ?E, ?C, sync_loop_db.
Qed.

Lemma tick_row_inv st env r :
  row_inv r -> eligible r -> row_inv (tick_row st env r).
Proof.
  intros (Hst & Hrc & Hmax & Hfail) [Hp Hlt]. unfold tick_row, apply_row, row_inv.
  destruct (exec_ok st env r); [|case_decide]; simpl; rewrite ?Hp;
    repeat split; intros; auto; try lia; done.
Qed.

Lemma tick_table_ids st env t : id <$> tick_table st env t = id <$> t.
Proof.
  unfold tick_table, after_tick. rewrite <- list_fmap_compose. apply list_fmap_ext.
  intros i r _. simpl. case_decide; [apply tick_row_id|done].
Qed.

Lemma tick_table_inv st env t :
  Forall row_inv t -> Forall row_inv (tick_table st env t).
Proof.
  unfold tick_table, after_tick. intros H. apply Forall_fmap.
  eapply Forall_impl; [exact H|]. intros r Hr. simpl.
  case_decide; [by apply tick_row_inv|done].
Qed.

Lemma process_sync_queue_inv st env :
  queue_inv (offline st) -> queue_inv (offline (_process_sync_queue st env)).
Proof.
  intros (Hkey & Hlt & Hrows & Hnone). unfold queue_inv.
  destruct (process_sync_queue_frame st env) as (_ & _ & -> & -> & _).
  rewrite process_sync_queue_table by done.
  destruct (is_offline_mode st); [done|].
  destruct (tables_created (offline st)) eqn:C; [|done]. simpl.
  destruct (sqlite_fails_after env); [done|].
  split_and!; [| | |done].
  - by rewrite tick_table_ids.
  - unfold tick_table, after_tick. apply Forall_fmap.
    eapply Forall_impl; [exact Hlt|]. intros r Hr. simpl.
    case_decide; [by rewrite tick_row_id|done].
  - by apply tick_table_inv.
Qed.

Lemma insert_row_inv d now tn op rid dat :
  tables_created d = true ->
  queue_inv d -> queue_inv (insert_row d now tn op rid dat).
Proof.
  intros Hc (Hkey & Hlt & Hrows & _). unfold queue_inv, insert_row. simpl.
  split_and!; [| | |by rewrite Hc].
  - rewrite fmap_app. apply NoDup_app. split_and!; [done| |apply NoDup_singleton].
    intros x (r & -> & Hr)%list_elem_of_fmap Hx%list_elem_of_singleton.
    rewrite Forall_forall in Hlt. specialize (Hlt r Hr). simpl in Hx. lia.
  - apply Forall_app. split.
    + eapply Forall_impl; [exact Hlt|]. intros r Hr. simpl in *. lia.
    + apply Forall_singleton. simpl. lia.
  - apply Forall_app. split; [done|]. apply Forall_singleton.
    unfold row_inv. simpl. repeat split; intros; auto; try lia; done.
Qed.

Lemma initialize_offline env st :
  offline (initialize env st) = offline st ∨
  offline (initialize env st) = _setup_offline_database (offline st).
Proof.
  unfold initialize. destruct (setup_main env); auto.
  destruct (setup_redis_ok env), (setup_offline_ok env),
    (test_connections_ok env); auto.
Qed.

Lemma setup_offline_database_inv d :
  queue_inv d ->
  queue_inv (_setup_offline_database d) ∧
  sync_queue (_setup_offline_database d) = sync_queue d ∧
  next_rowid (_setup_offline_database d) = next_rowid d.
Proof.
  intros Hinv. unfold _setup_offline_database.
  destruct (tables_created d) eqn:C; [done|].
  destruct Hinv as (_ & _ & _ & Hnone). destruct (Hnone C) as [-> ->].
  split; [|done]. unfold queue_inv. simpl. split_and!; by constructor.
Qed.

(** A restart keeps the rows and the counter, and satisfies the
    invariant the old file did. *)
Lemma restart_queue env st :
  queue_inv (offline st) ->
  queue_inv (offline (restart env st)) ∧
  sync_queue (offline (restart env st)) = sync_queue (offline st) ∧
  next_rowid (offline (restart env st)) = next_rowid (offline st).
Proof.
  intros Hinv. unfold restart.
  destruct (initialize_offline env (new_manager (offline st) (main_db st)))
    as [-> | ->]; simpl; [done|]. by apply setup_offline_database_inv.
Qed.

Lemma engine_step_inv st st' :
  engine_step st st' -> queue_inv (offline st) -> queue_inv (offline st').
Proof.
  intros Hstep Hinv. destruct Hstep as [st env tn op rid d|st env|st env].
  - unfold queue_sync_operation.
    destruct (insert_ok env); simpl; [|done].
    destruct (tables_created (offline st)) eqn:C; [|done]. simpl.
    destruct (is_offline_mode st); simpl.
    + by apply insert_row_inv.
    + apply process_sync_queue_inv. simpl. by apply insert_row_inv.
  - by apply process_sync_queue_inv.
  - by apply restart_queue.
Qed.

Lemma engine_steps_inv st st' :
  engine_steps st st' -> queue_inv (offline st) -> queue_inv (offline st').
Proof. induction 1; eauto using engine_step_inv. Qed.

Lemma reachable_inv st : reachable st -> queue_inv (offline st).
Proof.
  induction 1 as [db0|st st' _ IH Hstep].
  - unfold queue_inv. simpl. split_and!; by constructor.
  - by eapply engine_step_inv.
Qed.

(** *** Rows by id *)

Lemma row_of_fmap g rid t :
  (forall x, id (g x) = id x) ->
  row_of rid (g <$> t) = g <$> row_of rid t.
Proof.
  intros Hg. unfold row_of. induction t as [|x t IH]; [done|].
  rewrite fmap_cons, !filter_cons, Hg.
  case_decide; [done|exact IH].
Qed.

Lemma row_of_app_l rid t t' r :
  row_of rid t = Some r -> row_of rid (t ++ t') = Some r.
Proof.
  unfold row_of. rewrite filter_app.
  destruct (filter (fun r0 => id r0 = rid) t); [done|]. by simpl.
Qed.

Lemma row_of_elem rid t r : row_of rid t = Some r -> r ∈ t ∧ id r = rid.
Proof.
  unfold row_of. intros H.
  assert (r ∈ filter (fun r0 => id r0 = rid) t) as Hr.
  { destruct (filter _ t); simplify_eq/=. by left. }
  apply list_elem_of_filter in Hr. tauto.
Qed.

Lemma terminal_not_eligible r : terminal r -> ¬ eligible r.
Proof. intros [H|H] [Hp _]; rewrite H in Hp; discriminate. Qed.

Lemma row_of_tick_table st env rid t r :
  row_of rid t = Some r -> terminal r ->
  row_of rid (tick_table st env t) = Some r.
Proof.
  intros Hr Hterm. unfold tick_table, after_tick. rewrite row_of_fmap.
  - rewrite Hr. simpl. by rewrite decide_False by by apply terminal_not_eligible.
  - intros x. case_decide; [apply tick_row_id|done].
Qed.

Lemma process_sync_queue_terminal st env rid r :
  NoDup (id <$> sync_queue (offline st)) ->
  row_of rid (sync_queue (offline st)) = Some r -> terminal r ->
  row_of rid (sync_queue (offline (_process_sync_queue st env))) = Some r.
Proof.
  intros Hkey Hr Hterm. rewrite process_sync_queue_table by done.
  destruct (is_offline_mode st); [done|].
  destruct (tables_created (offline st)); [|done]. simpl.
  destruct (sqlite_fails_after env); [done|]. by apply row_of_tick_table.
Qed.

Lemma engine_step_terminal st st' rid r :
  queue_inv (offline st) -> engine_step st st' ->
  row_of rid (sync_queue (offline st)) = Some r -> terminal r ->
  row_of rid (sync_queue (offline st')) = Some r.
Proof.
  intros Hinv Hstep Hr Hterm.
  destruct Hstep as [st env tn op rid' d|st env|st env].
  - unfold queue_sync_operation. destruct (insert_ok env); simpl; [|done].
    destruct (tables_created (offline st)) eqn:C; [|done]. simpl.
    pose proof (insert_row_inv (offline st) (now env) tn op rid' d C Hinv)
      as (Hkey & _).
    destruct (is_offline_mode st); simpl.
    + by apply row_of_app_l.
    + apply process_sync_queue_terminal; [done| |done]. by apply row_of_app_l.
  - destruct Hinv as (Hkey & _). by apply process_sync_queue_terminal.
  - destruct (restart_queue env st Hinv) as (_ & -> & _). done.
Qed.

Lemma engine_steps_terminal st st' rid r :
  queue_inv (offline st) -> engine_steps st st' ->
  row_of rid (sync_queue (offline st)) = Some r -> terminal r ->
  row_of rid (sync_queue (offline st')) = Some r.
Proof.
  intros Hinv Hsteps. revert Hinv.
  induction Hsteps as [|st st' st'' Hstep _ IH]; [done|].
  intros Hinv Hr Hterm. apply IH; eauto using engine_step_inv, engine_step_terminal.
Qed.

End SyncQueueFacts.

(** *** Draining the table *)

Section SyncQueueDrain.
Import SyncQueue.

Lemma remaining_budget_inv r :
  row_inv r -> 0 <= remaining_budget r <= 3.
Proof.
  intros (_ & Hrc & Hmax & _). unfold remaining_budget. case_decide; lia.
Qed.

Lemma pending_is_eligible r : row_inv r -> status r = "pending" -> eligible r.
Proof.
  intros (_ & Hrc & _ & Hfail) Hp. split; [done|].
  destruct (decide (retry_count r = max_retries r)) as [E|E]; [|lia].
  apply Hfail in E. rewrite Hp in E. discriminate.
Qed.

Lemma spent_is_terminal r :
  row_inv r -> remaining_budget r <= 0 -> terminal r.
Proof.
  intros Hinv Hb. pose proof Hinv as ([Hp|[?|?]] & _); [|by left|by right].
  destruct (pending_is_eligible r Hinv Hp) as [_ Hlt].
  unfold remaining_budget in Hb. rewrite decide_True in Hb by done. lia.
Qed.

Lemma tick_row_budget st env r :
  row_inv r -> eligible r ->
  remaining_budget (tick_row st env r) <= remaining_budget r - 1.
Proof.
  intros Hinv [Hp Hlt]. unfold remaining_budget at 2.
  rewrite decide_True by done. unfold tick_row, apply_row, remaining_budget.
  destruct (exec_ok st env r); [|case_decide]; simpl; rewrite ?Hp;
    repeat case_decide; try done; simpl in *; lia.
Qed.

Lemma tick_table_budget st env t k :
  Forall row_inv t ->
  Forall (fun r => remaining_budget r <= k) t ->
  Forall (fun r => remaining_budget r <= Z.max 0 (k - 1)) (tick_table st env t).
Proof.
  intros Hinv Hk. unfold tick_table, after_tick. apply Forall_fmap, Forall_forall.
  intros r Hr. rewrite Forall_forall in Hinv, Hk.
  specialize (Hinv r Hr). specialize (Hk r Hr). simpl.
  destruct (decide (eligible r)) as [He|He].
  - pose proof (tick_row_budget st env r Hinv He). lia.
  - assert (remaining_budget r = 0); [|lia].
    unfold remaining_budget. case_decide as Hp; [|done].
    exfalso. by apply He, pending_is_eligible.
Qed.

Lemma run_ticks_frame envs n st :
  queue_inv (offline st) ->
  queue_inv (offline (run_ticks envs n st)) ∧
  is_offline_mode (run_ticks envs n st) = is_offline_mode st.
Proof.
  intros Hinv. induction n as [|n [IH1 IH2]]; [done|]. simpl.
  destruct (process_sync_queue_frame (run_ticks envs n st) (envs n))
    as (-> & _). auto using process_sync_queue_inv.
Qed.

Lemma run_ticks_budget envs n st :
  queue_inv (offline st) -> is_offline_mode st = false ->
  (forall i, sqlite_fails_after (envs i) = None) ->
  Forall (fun r => remaining_budget r <= Z.max 0 (3 - Z.of_nat n))
    (sync_queue (offline (run_ticks envs n st))).
Proof.
  intros Hinv Hon Hsql. induction n as [|n IH].
  - simpl. destruct Hinv as (_ & _ & Hrows & _).
    eapply Forall_impl; [exact Hrows|]. intros r Hr.
    pose proof (remaining_budget_inv r Hr). simpl. lia.
  - destruct (run_ticks_frame envs n st Hinv)
      as [(Hkey & _ & Hrows & Hnone) Hmode].
    cbn [run_ticks]. rewrite process_sync_queue_table by done.
    rewrite Hmode, Hon, Hsql.
    destruct (tables_created (offline (run_ticks envs n st))); simpl.
    + eapply Forall_impl; [apply tick_table_budget; [exact Hrows|exact IH]|].
      intros r Hr. simpl in Hr. lia.
    + destruct (Hnone eq_refl) as [-> _]. constructor.
Qed.

End SyncQueueDrain.

(** * Properties of [OfflineManager.process_queue] *)

Section OfflineMgrFacts.
Import OfflineMgr.

Variable envs : nat -> iter_env.
Variable now : Z.

(** While every action reports failure and the attempt counter can be
    written, the loop re-queues what it pops: no number of iterations
    empties the deque. *)
Lemma process_queue_never_drains fuel i st :
  (forall j, increment_ok (envs j) = true) ->
  queue st ≠ [] ->
  exists st', queue st' ≠ [] ∧
    process_queue_from (fun _ _ => Returned false) envs now fuel i st
      = StillRunning st'.
Proof.
  intros Hinc. revert i st. induction fuel as [|fuel IH]; intros i st Hq.
  - exists st. done.
  - cbn [process_queue_from]. destruct (queue st) as [|[a d] q] eqn:E; [done|].
    unfold process_one. rewrite Hinc. apply IH. simpl.
    by destruct q.
Qed.

(** The same with the placeholder [_execute_action] of the class, when
    the DELETE keeps raising and the handler's UPDATE goes through. *)
Lemma process_queue_never_drains_delete fuel i st :
  (forall j, delete_ok (envs j) = false ∧ handler_increment_ok (envs j) = true) ->
  queue st ≠ [] ->
  exists st', queue st' ≠ [] ∧
    process_queue_from _execute_action envs now fuel i st = StillRunning st'.
Proof.
  intros Henv. revert i st. induction fuel as [|fuel IH]; intros i st Hq.
  - exists st. done.
  - cbn [process_queue_from]. destruct (queue st) as [|[a d] q] eqn:E; [done|].
    unfold process_one, _execute_action.
    destruct (Henv i) as [-> ->]. apply IH. simpl. by destruct q.
Qed.

(** When every action succeeds and its row can be deleted, the loop
    empties the deque in as many iterations as it holds actions. *)
Lemma process_queue_drains i st :
  (forall j, delete_ok (envs j) = true) ->
  exists t,
    process_queue_from _execute_action envs now (S (length (queue st))) i st
      = Finished {| queue := []; offline_queue := t; next_id := next_id st;
                    last_sync := now |}.
Proof.
  intros Hdel. remember (length (queue st)) as n eqn:Hn.
  revert i st Hn. induction n as [|n IH]; intros i st Hn.
  - destruct (queue st) eqn:E; [|done]. cbn [process_queue_from]. rewrite E.
    by eexists.
  - cbn [process_queue_from]. destruct (queue st) as [|[a d] q] eqn:E; [done|].
    unfold process_one, _execute_action. rewrite Hdel. cbv iota beta.
    destruct (IH (S i) (with_table (with_memory_queue st q)
                (delete_matching a d (offline_queue (with_memory_queue st q)))))
      as [t Ht].
    + simpl in Hn |- *. lia.
    + exists t. exact Ht.
Qed.

End OfflineMgrFacts.

(** * Properties of the offline post queue *)

Section SocialFacts.
Import Social.

Variable unicode_lower : string -> string.
Variable publish : string -> json_dict -> publish_outcome.
Variable user_id : string.

Lemma file_extends_refl file : file_extends user_id file file.
Proof. split; [done|]. exists []. by rewrite app_nil_r. Qed.

Lemma file_extends_trans f1 f2 f3 :
  file_extends user_id f1 f2 -> file_extends user_id f2 f3 ->
  file_extends user_id f1 f3.
Proof.
  intros [H1 (e1 & He1 & E1)] [H2 (e2 & He2 & E2)]. split.
  - intros u Hu. by rewrite H2, H1.
  - exists (e1 ++ e2). split; [by apply Forall_app|].
    by rewrite E2, E1, app_assoc.
Qed.

Lemma queue_for_publishing_extends file p uuid4 utcnow :
  file_extends user_id file
    (queue_for_publishing file user_id p uuid4 utcnow).2.
Proof.
  unfold queue_for_publishing, _load_queue. simpl. split.
  - intros u Hu. by rewrite lookup_insert_ne.
  - exists [ {| id := uuid4; post := p; queued_at := utcnow;
                retry_count := 0; max_retries := 3 |} ].
    split; [apply Forall_singleton; by split|].
    unfold user_queue_of at 1. by rewrite lookup_insert_eq.
Qed.

(** What one of the three retry blocks does while [updated_queue] is
    unbound. *)
Lemma retry_or_fail_unbound s :
  updated_queue s = None ->
  let r := retry_or_fail s in
  updated_queue r.1 = None ∧
  (r.2 = None ∨ r.2 = Some (NameError "updated_queue")) ∧
  file_ r.1 = file_ s ∧ published r.1 = published s ∧
  processed r.1 = processed s ∧
  queue_item_ r.1 = incr_retry_count (queue_item_ s).
Proof.
  intros Hu. unfold retry_or_fail. simpl. rewrite Hu.
  case_decide; simpl; auto 10.
Qed.

Lemma try_body_unbound s :
  updated_queue s = None ->
  let r := try_body unicode_lower publish user_id s in
  updated_queue r.1 = None ∧
  file_extends user_id (file_ s) (file_ r.1) ∧
  (queue_item_ r.1 = queue_item_ s ∨
   (queue_item_ r.1 = incr_retry_count (queue_item_ s) ∧
    (r.2 = None ∨ r.2 = Some (NameError "updated_queue")))).
Proof.
  intros Hu. unfold try_body.
  destruct (publish user_id (post (queue_item_ s))) as [|err rq u4 now|e].
  - simpl. auto using file_extends_refl.
  - set (f' := if is_network_error unicode_lower err then _ else _).
    match goal with |- context [retry_or_fail ?x] =>
      pose proof (retry_or_fail_unbound x Hu) as H end.
    cbv zeta in H. destruct H as (H1 & H2 & H3 & _ & _ & H6).
    cbv zeta. rewrite H1, H3, H6. cbn [file_ queue_item_].
    split_and!; [done| |by right].
    subst f'. destruct (is_network_error unicode_lower err);
      auto using file_extends_refl, queue_for_publishing_extends.
  - simpl. auto using file_extends_refl.
Qed.

(** The text of the [NameError] names no network error, so the last
    handler counts it as a permanent failure. *)
Lemma name_error_is_not_network :
  is_network_error unicode_lower (str (NameError "updated_queue")) = false.
Proof. reflexivity. Qed.

(** One iteration while [updated_queue] is unbound: the name stays
    unbound, the only exception that can leave the loop is the
    [NameError], the file only grows, and the item is either left alone
    or has had one increment. *)
Lemma process_item_unbound s :
  updated_queue s = None ->
  let r := process_item unicode_lower publish user_id s in
  updated_queue r.1 = None ∧
  (r.2 = None ∨ r.2 = Some (NameError "updated_queue")) ∧
  file_extends user_id (file_ s) (file_ r.1) ∧
  (queue_item_ r.1 = queue_item_ s ∨
   queue_item_ r.1 = incr_retry_count (queue_item_ s)).
Proof.
  intros Hu. unfold process_item.
  destruct (try_body_unbound s Hu) as (H1 & H2 & H3). cbv zeta in *.
  destruct (try_body unicode_lower publish user_id s) as [s1 [e|]]; cbn [fst snd] in *.
  - destruct H3 as [H3|[H3 [?| [= ->]]]]; [|done|].
    + destruct (retry_or_fail_unbound s1 H1) as (R1 & R2 & R3 & _ & _ & R6).
      cbv zeta in *.
      destruct e; try (destruct (is_network_error _));
        cbn [fst snd count_failed updated_queue file_ queue_item_];
        rewrite ?R1, ?R3, ?R6, ?H3; auto 10.
    + rewrite name_error_is_not_network.
      cbn [fst snd count_failed updated_queue file_ queue_item_]. auto 10.
  - split_and!; auto. destruct H3 as [->|[-> _]]; auto.
Qed.

Lemma for_loop_unbound ls items :
  updated_queue (vars ls) = None ->
  let r := for_loop unicode_lower publish user_id ls items in
  updated_queue (vars r.1.1) = None ∧
  (r.2 = None ∨ r.2 = Some (NameError "updated_queue")) ∧
  file_extends user_id (file_ (vars ls)) (file_ (vars r.1.1)) ∧
  exists seen seen',
    items = seen ++ r.1.2 ∧ visited r.1.1 = visited ls ++ seen' ∧
    Forall2 (fun a b => b = a ∨ b = incr_retry_count a) seen seen'.
Proof.
  revert ls. induction items as [|it rest IH]; intros ls Hu; cbv zeta.
  - simpl. split_and!; auto using file_extends_refl.
    exists [], []. split_and!; [done|by rewrite app_nil_r|constructor].
  - cbn [for_loop].
    assert (updated_queue (with_item (vars ls) it) = None) as Hu' by done.
    destruct (process_item_unbound _ Hu') as (P1 & P2 & P3 & P4).
    cbv zeta in *.
    destruct (process_item unicode_lower publish user_id (with_item (vars ls) it))
      as [s [e|]]; cbn [fst snd] in *.
    + split_and!; [done|done|done|].
      exists [it], [queue_item_ s]. split_and!; [done|done|].
      constructor; [done|constructor].
    + specialize (IH {| visited := visited ls ++ [queue_item_ s]; vars := s |} P1).
      cbv zeta in IH. cbn [visited vars] in IH.
      destruct IH as (I1 & I2 & I3 & seen & seen' & E1 & E2 & I4).
      split_and!; [done|done|by eapply file_extends_trans|].
      exists (it :: seen), (queue_item_ s :: seen'). split_and!.
      * by rewrite E1 at 1.
      * by rewrite E2, <- app_assoc.
      * constructor; done.
Qed.

(** Every call ends in the outer handler, on the [NameError]. *)
Lemma process_offline_queue_error file :
  returned (process_offline_queue unicode_lower publish file user_id) =
    {| r_processed := 0; r_failed := 0; r_remaining := 0;
       r_error := Some "name 'updated_queue' is not defined" |}.
Proof.
  unfold process_offline_queue, process_offline_queue_from.
  match goal with |- context [for_loop _ _ _ ?l ?i] =>
    destruct (for_loop_unbound l i eq_refl) as (H1 & H2 & _);
    destruct (for_loop unicode_lower publish user_id l i) as [[ls rest] oe] end.
  cbn [fst snd] in *. destruct H2 as [->| ->].
  - by rewrite H1.
  - done.
Qed.

(** No call removes or rewrites an item of the file: the file it leaves
    is the one it found, with whatever [publish_to_platforms] queued
    behind it. *)
Lemma process_offline_queue_file file :
  file_extends user_id file
    (file_after (process_offline_queue unicode_lower publish file user_id)).
Proof.
  unfold process_offline_queue, process_offline_queue_from.
  match goal with |- context [for_loop _ _ _ ?l ?i] =>
    destruct (for_loop_unbound l i eq_refl) as (H1 & H2 & H3 & _);
    destruct (for_loop unicode_lower publish user_id l i) as [[ls rest] oe] end.
  cbn [fst snd vars file_] in *. destruct oe; [done|]. by rewrite H1.
Qed.

(** The user's list as the call leaves it in memory: item by item the
    list of the file, each with at most one increment. *)
Lemma process_offline_queue_memory file :
  Forall2 (fun a b => b = a ∨ b = incr_retry_count a)
    (user_queue_of file user_id)
    (in_memory (process_offline_queue unicode_lower publish file user_id)).
Proof.
  unfold process_offline_queue, process_offline_queue_from.
  match goal with |- context [for_loop _ _ _ ?l ?i] =>
    destruct (for_loop_unbound l i eq_refl) as (H1 & H2 & _ & seen & seen' & E1 & E2 & HF);
    destruct (for_loop unicode_lower publish user_id l i) as [[ls rest] oe] end.
  cbn [fst snd vars visited] in *.
  assert (Forall2 (fun a b => b = a ∨ b = incr_retry_count a)
            (user_queue_of (_load_queue file) user_id) (visited ls ++ rest)).
  { rewrite E1, E2. simpl. apply Forall2_app; [done|].
    apply Forall_Forall2_diag, Forall_forall. auto. }
  destruct oe; [done|]. by rewrite H1.
Qed.

Lemma file_extends_inv file file' :
  file_extends user_id file file' -> file_inv file -> file_inv file'.
Proof.
  intros [Hother (extra & Hextra & Happ)] Hinv u l Hl.
  destruct (decide (u = user_id)) as [->|Hne].
  - unfold user_queue_of in Happ. rewrite Hl in Happ. simpl in Happ. subst l.
    apply Forall_app. split; [|done].
    destruct (file !! user_id) as [l0|] eqn:E; simpl; [by eapply Hinv|done].
  - rewrite Hother in Hl by done. by eapply Hinv.
Qed.

(** In memory too the retry count stays within its bound. *)
Lemma process_offline_queue_retry_bound file :
  file_inv file ->
  Forall (fun it => retry_count it <= max_retries it)
    (in_memory (process_offline_queue unicode_lower publish file user_id)).
Proof.
  intros Hinv. pose proof (process_offline_queue_memory file) as HF.
  assert (Forall fresh_item (user_queue_of file user_id)) as Hfresh.
  { unfold user_queue_of.
    destruct (file !! user_id) eqn:E; simpl; [by eapply Hinv|done]. }
  revert Hfresh. induction HF as [|a b l l' Hab _ IH]; [done|].
  intros [[H0 H3] Hl]%Forall_cons. constructor; [|by apply IH].
  destruct Hab as [->| ->]; simpl; lia.
Qed.

(** A loop over items that all publish: every post goes out again and
    nothing else changes. *)
Lemma for_loop_all_ok ls items :
  Forall (fun it => publish user_id (post it) = PubOk) items ->
  let r := for_loop unicode_lower publish user_id ls items in
  r.2 = None ∧ r.1.2 = [] ∧
  file_ (vars r.1.1) = file_ (vars ls) ∧
  updated_queue (vars r.1.1) = updated_queue (vars ls) ∧
  published (vars r.1.1) = published (vars ls) ++ (post <$> items).
Proof.
  revert ls. induction items as [|it rest IH]; intros ls Hok; cbv zeta.
  - simpl. by rewrite app_nil_r.
  - apply Forall_cons in Hok as [Hit Hrest]. cbn [for_loop].
    unfold process_item, try_body. cbn [with_item queue_item_]. rewrite Hit.
    match goal with |- context [for_loop _ _ _ ?l rest] =>
      destruct (IH l Hrest) as (I1 & I2 & I3 & I4 & I5) end.
    cbn [vars file_ updated_queue published] in *.
    rewrite I1, I2, I3, I4, I5. by rewrite <- app_assoc.
Qed.

Lemma process_offline_queue_all_ok file :
  Forall (fun it => publish user_id (post it) = PubOk)
    (user_queue_of file user_id) ->
  file_after (process_offline_queue unicode_lower publish file user_id) = file ∧
  sent (process_offline_queue unicode_lower publish file user_id) =
    post <$> user_queue_of file user_id.
Proof.
  intros Hok. unfold process_offline_queue, process_offline_queue_from.
  match goal with |- context [for_loop _ _ _ ?l ?i] =>
    destruct (for_loop_all_ok l i Hok) as (H1 & H2 & H3 & H4 & H5);
    destruct (for_loop unicode_lower publish user_id l i) as [[ls rest] oe] end.
  cbn [fst snd vars file_ updated_queue published] in *. subst oe.
  by rewrite H4, H3, H5.
Qed.

Lemma repeat_calls_all_ok file n :
  Forall (fun it => publish user_id (post it) = PubOk)
    (user_queue_of file user_id) ->
  repeat_calls unicode_lower publish user_id n file =
    (file, replicate n (post <$> user_queue_of file user_id)).
Proof.
  intros Hok. induction n as [|n IH]; [done|].
  cbn [repeat_calls].
  destruct (process_offline_queue_all_ok file Hok) as [-> ->].
  by rewrite IH.
Qed.

(** The loop over items as [queue_for_publishing] wrote them, while
    [updated_queue] is unbound: it visits the items before the first one
    whose handler reads [updated_queue], and the posts that go out are
    those of the visited items that publish. *)
Lemma for_loop_published ls items :
  updated_queue (vars ls) = None ->
  Forall fresh_item items ->
  published (vars (for_loop unicode_lower publish user_id ls items).1.1) =
    published (vars ls) ++
      (post <$> filter (fun it => goes_out publish user_id it = true)
                  (before_first (leaves_loop unicode_lower publish user_id)
                     items)).
Proof.
  revert ls. induction items as [|it rest IH]; intros ls Hu Hfresh.
  - simpl. by rewrite app_nil_r.
  - apply Forall_cons in Hfresh as [[H0 H3] Hrest].
    assert (forall s, updated_queue s = None -> queue_item_ s = it ->
              retry_or_fail s =
                (with_item s (incr_retry_count it),
                 Some (NameError "updated_queue"))) as Hretry.
    { intros s Hs Hit. unfold retry_or_fail. rewrite Hit.
      cbn [with_item queue_item_ updated_queue incr_retry_count retry_count
           max_retries].
      rewrite H0, H3, Hs. by rewrite decide_True by lia. }
    cbn [for_loop before_first].
    unfold process_item, try_body, leaves_loop, goes_out.
    cbn [with_item queue_item_].
    destruct (publish user_id (post it)) as [|err rq u4 now|e] eqn:E.
    + rewrite filter_cons_True by (by rewrite E).
      rewrite IH by done. cbn [vars published].
      by rewrite fmap_cons, <-app_assoc.
    + rewrite Hretry by done. rewrite name_error_is_not_network.
      rewrite filter_cons_False by (by rewrite E).
      by rewrite IH.
    + destruct e as [m|nm|m|m|m];
        [rewrite Hretry by done; simpl; by rewrite app_nil_r|..];
        (destruct (is_network_error unicode_lower _) eqn:En;
         [rewrite Hretry by done; simpl; by rewrite app_nil_r|
          rewrite filter_cons_False by (by rewrite E); by rewrite IH]).
Qed.

Lemma process_offline_queue_sent file :
  file_inv file ->
  sent (process_offline_queue unicode_lower publish file user_id) =
    post <$> filter (fun it => goes_out publish user_id it = true)
               (before_first (leaves_loop unicode_lower publish user_id)
                  (user_queue_of file user_id)).
Proof.
  intros Hinv.
  assert (Forall fresh_item (user_queue_of file user_id)) as Hfresh.
  { unfold user_queue_of.
    destruct (file !! user_id) eqn:E; simpl; [by eapply Hinv|done]. }
  unfold process_offline_queue, process_offline_queue_from.
  match goal with |- context [for_loop _ _ _ ?l ?i] =>
    pose proof (for_loop_published l i eq_refl Hfresh) as Hp;
    destruct (for_loop_unbound l i eq_refl) as (H1 & _);
    destruct (for_loop unicode_lower publish user_id l i) as [[ls rest] oe] end.
  cbn [fst snd vars published] in *.
  destruct oe; [done|]. by rewrite H1.
Qed.

Lemma before_first_app {A} (stop : A -> bool) (l l' : list A) :
  before_first stop l `prefix_of` before_first stop (l ++ l').
Proof.
  induction l as [|x l IH]; simpl; [apply prefix_nil|].
  destruct (stop x); [apply prefix_nil|]. by apply prefix_cons.
Qed.

(** With publishing behaving as before, a call sends again whatever the
    call before it sent. *)
Lemma process_offline_queue_sent_again file :
  file_inv file ->
  sent (process_offline_queue unicode_lower publish file user_id)
    `prefix_of`
  sent (process_offline_queue unicode_lower publish
          (file_after (process_offline_queue unicode_lower publish file
                         user_id)) user_id).
Proof.
  intros Hinv.
  pose proof (process_offline_queue_file file) as Hext.
  pose proof (file_extends_inv _ _ Hext Hinv) as Hinv'.
  rewrite (process_offline_queue_sent _ Hinv'), (process_offline_queue_sent _ Hinv).
  destruct Hext as [_ (extra & _ & ->)].
  destruct (before_first_app (leaves_loop unicode_lower publish user_id)
              (user_queue_of file user_id) extra) as [k ->].
  rewrite filter_app, fmap_app. by eexists.
Qed.

End SocialFacts.

Lemma reachable_file_inv file : Social.reachable_file file -> Social.file_inv file.
Proof.
  induction 1 as [|file u p uuid4 utcnow _ IH|file ul publish u _ IH].
  - intros u l Hl. by rewrite lookup_empty in Hl.
  - eapply file_extends_inv; [apply queue_for_publishing_extends|done].
  - eapply file_extends_inv; [apply process_offline_queue_file|done].
Qed.

(** * The claims *)

Section Claims.
Import SyncQueue Run.

(** *** Reachability of the concrete runs *)

Lemma reachable_started : reachable started.
Proof. exact (reach_step _ _ (reach_new ∅) (step_restart _ all_up)). Qed.

Lemma reachable_one_synced : reachable one_synced.
Proof.
  exact (reach_step _ _ reachable_started
           (step_enqueue _ (at_time "2024-05-01 10:00:00" commits)
              "users" "UPDATE" "u1" payload)).
Qed.

Lemma reachable_one_failed : reachable one_failed.
Proof.
  pose proof (reach_step _ _ reachable_started
                (step_enqueue _ (at_time "2024-05-01 10:00:00" commit_fails)
                   "users" "UPDATE" "u1" payload)) as H1.
  pose proof (reach_step _ _ H1 (step_tick _ commit_fails)) as H2.
  exact (reach_step _ _ H2 (step_tick _ commit_fails)).
Qed.

Lemma reachable_alice_file : Social.reachable_file alice_file.
Proof.
  exact (Social.file_queued ∅ "alice" hello "q-1" "2024-05-01T10:00:00"
           Social.file_empty).
Qed.







(** *** Ordering of a batch *)

#[local] Instance created_le_trans : Transitive created_le.
Proof. intros x y z. unfold created_le. apply transitivity. Qed.

#[local] Instance created_le_total : Total created_le.
Proof. intros x y. unfold created_le. apply total, _. Qed.

#[local] Instance timestamp_le_trans : Transitive Analytics.timestamp_le.
Proof. intros x y z. unfold Analytics.timestamp_le. apply transitivity. Qed.

#[local] Instance timestamp_le_total : Total Analytics.timestamp_le.
Proof. intros x y. unfold Analytics.timestamp_le. apply total, _. Qed.

Lemma StronglySorted_take {A} (R : relation A) (l : list A) n :
  StronglySorted R l -> StronglySorted R (take n l).
Proof.
  intros H. rewrite <- (take_drop n l) in H.
  by apply StronglySorted_app_1_l in H.
Qed.

(** What [LIMIT] keeps of a list: its first part, as long as the limit
    says, or all of it when the limit is negative. *)
Lemma sql_limit_cut {A} (limit : Z) (l : list A) :
  exists rest,
    l = Analytics.sql_limit limit l ++ rest ∧
    length (Analytics.sql_limit limit l) =
      if decide (limit < 0) then length l
      else Nat.min (Z.to_nat limit) (length l).
Proof.
  unfold Analytics.sql_limit. case_decide.
  - exists []. by rewrite app_nil_r.
  - exists (drop (Z.to_nat limit) l). by rewrite take_drop, length_take.
Qed.

(** C2 (amended). The batch [_process_sync_queue] loads is the pending
    rows with retry budget left, in ascending order of creation time;
    the batch [get_unsynced_events] returns is in ascending order of
    timestamp and is the unsynced events cut at the limit: together with
    the events it leaves out it makes up the unsynced events, none of
    the events left out is older than an event of the batch, and the
    batch has as many events as the limit says, or all of them when
    there are fewer or the limit is negative; when SQLite raises, the
    batch is empty. Neither table has a priority, and none enters the
    order. *)
Theorem batch_is_oldest_first (t : list sync_row)
    (dbs : Analytics.analytics_db) (sqlite_ok : bool) (limit : Z) :
  StronglySorted created_le (select_pending t) ∧
  select_pending t ≡ₚ filter eligible t ∧
  StronglySorted Analytics.timestamp_le
    (Analytics.get_unsynced_events dbs sqlite_ok limit) ∧
  Analytics.get_unsynced_events dbs false limit = [] ∧
  exists rest,
    Analytics.get_unsynced_events dbs true limit ++ rest ≡ₚ
      filter (fun e => Analytics.synced e = false)
        (Analytics.analytics_events dbs) ∧
    (forall e e', e ∈ Analytics.get_unsynced_events dbs true limit ->
                  e' ∈ rest -> Analytics.timestamp_le e e') ∧
    length (Analytics.get_unsynced_events dbs true limit) =
      if decide (limit < 0)
      then length (filter (fun e => Analytics.synced e = false)
                     (Analytics.analytics_events dbs))
      else Nat.min (Z.to_nat limit)
             (length (filter (fun e => Analytics.synced e = false)
                        (Analytics.analytics_events dbs))).
Proof.
  assert (StronglySorted Analytics.timestamp_le
            (merge_sort Analytics.timestamp_le
               (filter (fun e => Analytics.synced e = false)
                  (Analytics.analytics_events dbs)))) as Hsorted
    by (apply StronglySorted_merge_sort; apply _).
  split_and!.
  - apply StronglySorted_merge_sort; apply _.
  - apply select_pending_perm.
  - unfold Analytics.get_unsynced_events, Analytics.sql_limit.
    destruct sqlite_ok; [|constructor].
    case_decide; [done|by apply StronglySorted_take].
  - reflexivity.
  - unfold Analytics.get_unsynced_events. cbv iota.
    match goal with |- context [Analytics.sql_limit limit ?l] =>
      set (sorted := l) in *;
      destruct (sql_limit_cut limit sorted) as (rest & Hcut & Hlen) end.
    assert (sorted ≡ₚ filter (fun e => Analytics.synced e = false)
                        (Analytics.analytics_events dbs)) as Hperm
      by apply merge_sort_Permutation.
    assert (StronglySorted Analytics.timestamp_le sorted) as Hs
      by (apply StronglySorted_merge_sort; apply _).
    exists rest. split_and!.
    + by rewrite <- Hcut.
    + rewrite Hcut in Hs. intros e e' He He'.
      by eapply StronglySorted_app_1_elem_of.
    + rewrite Hlen. by rewrite (Permutation_length Hperm).
Qed.

(** C2 on a table of three events, the oldest stored last, with a limit
    of two: the batch is the two oldest, and the third is left out. *)
Lemma batch_is_oldest_first_witness :
  Analytics.get_unsynced_events AnalyticsSync.three_events true 2 =
    [ AnalyticsSync.event_at 3 "2024-05-01T10:00:01" false;
      AnalyticsSync.event_at 1 "2024-05-01T10:00:02" false ] ∧
  length (Analytics.get_unsynced_events AnalyticsSync.three_events true 2)
    = 2%nat.
Proof.
  destruct (batch_is_oldest_first [] AnalyticsSync.three_events true 2)
    as (_ & _ & _ & _ & rest & _ & _ & Hlen).
  split; [vm_compute; reflexivity|]. rewrite Hlen. reflexivity.
Defined.

(** C2, counterexample. Two pending updates of the same table, the
    second one meant to have priority 5 and the first priority 1: the
    batch starts with the priority-1 row, and is not in the order of
    priority then age. *)
Lemma low_priority_row_is_attempted_first :
  exists low high,
    select_pending (sync_queue (offline two_pending)) = [low; high] ∧
    urgent_second low = 1 ∧ urgent_second high = 5 ∧
    eligible low ∧ eligible high ∧ table_name low = table_name high ∧
    ¬ Sorted (Claimed.priority_then_age urgent_second)
        (select_pending (sync_queue (offline two_pending))).
Proof.
  eexists _, _. split; [vm_compute; reflexivity|].
  split; [reflexivity|]. split; [reflexivity|].
  split; [by apply (bool_decide_unpack _)|].
  split; [by apply (bool_decide_unpack _)|].
  split; [reflexivity|].
  apply (bool_decide_eq_false_1 _). vm_compute. reflexivity.
Qed.

(** *** Statuses and restart *)

(** C3 (amended). The sync queue has no PROCESSING status and no
    recovery step: every row of a reachable state is ['pending'],
    ['synced'] or ['failed'], and a restart leaves the rows of the SQLite
    table and its counter exactly as it found them. *)
Theorem restart_keeps_the_queue st env r :
  reachable st -> r ∈ sync_queue (offline st) ->
  (status r = "pending" ∨ status r = "synced" ∨ status r = "failed") ∧
  status r ≠ "processing" ∧
  sync_queue (offline (restart env st)) = sync_queue (offline st) ∧
  next_rowid (offline (restart env st)) = next_rowid (offline st).
Proof.
  intros Hst Hr. pose proof (reachable_inv st Hst) as Hinv.
  destruct Hinv as (_ & _ & Hrows & _).
  rewrite Forall_forall in Hrows. destruct (Hrows r Hr) as (Hs & _).
  split_and!; [done| | |].
  - intros E. rewrite E in Hs. by destruct Hs as [?|[?|?]].
  - by destruct (restart_queue env st (reachable_inv st Hst)) as (_ & ? & _).
  - by destruct (restart_queue env st (reachable_inv st Hst)) as (_ & _ & ?).
Qed.

Lemma restart_keeps_the_queue_witness :
  synced_row ∈ sync_queue (offline one_synced) ∧
  status synced_row ≠ "processing" ∧
  sync_queue (offline (restart all_up one_synced)) =
    sync_queue (offline one_synced).
Proof.
  assert (synced_row ∈ sync_queue (offline one_synced)) as Hin.
  { vm_compute. apply list_elem_of_here. }
  destruct (restart_keeps_the_queue one_synced all_up synced_row
              reachable_one_synced Hin) as (_ & H2 & H3 & _).
  exact (conj Hin (conj H2 H3)).
Defined.

(** C3, counterexample. A row left in ['processing'] when the process
    died is still ['processing'] after the restart, before any run of
    [_process_sync_queue], and the first run does not pick it up
    either. *)
Lemma processing_row_survives_restart :
  status stuck_row = "processing" ∧
  sync_queue (offline crashed) = [stuck_row] ∧
  sync_queue (offline (restart all_up crashed)) = [stuck_row] ∧
  sync_queue (offline (_process_sync_queue (restart all_up crashed) commits))
    = [stuck_row].
Proof. vm_compute. auto. Qed.

(** C4. A row of a reachable state that is ['synced'] or ['failed'] is
    the same row, in every column, after any sequence of enqueues, runs
    of [_process_sync_queue] and restarts; and an analytics event that
    is synced is the same event after [mark_events_synced] and after
    [store_event]. *)
Theorem terminal_rows_are_final st st' rid r dbs ok event_ids event i e :
  reachable st -> engine_steps st st' ->
  row_of rid (sync_queue (offline st)) = Some r -> terminal r ->
  Analytics.analytics_events dbs !! i = Some e -> Analytics.synced e = true ->
  row_of rid (sync_queue (offline st')) = Some r ∧
  Analytics.analytics_events (Analytics.mark_events_synced dbs ok event_ids).2
    !! i = Some e ∧
  Analytics.analytics_events (Analytics.store_event dbs ok event).2
    !! i = Some e.
Proof.
  intros Hst Hsteps Hr Hterm He Hsynced. split_and!.
  - eapply engine_steps_terminal; eauto using reachable_inv.
  - unfold Analytics.mark_events_synced. destruct ok; [|done]. simpl.
    rewrite list_lookup_fmap, He. simpl. f_equal.
    case_decide; [|done]. unfold Analytics.set_synced.
    destruct e. simpl in *. by subst.
  - unfold Analytics.store_event. destruct ok; [|done]. simpl.
    by apply lookup_app_l_Some.
Qed.

Lemma terminal_rows_are_final_witness :
  row_of 1 (sync_queue (offline
     (queue_sync_operation (_process_sync_queue one_failed commits)
        (at_time "2024-05-02 08:00:00" commits) "users" "DELETE" "u1" []).2))
    = Some failed_row ∧
  Analytics.analytics_events
    (Analytics.mark_events_synced analytics_one true [1]).2 !! 0%nat
    = Some synced_event.
Proof.
  assert (engine_steps one_failed
            (queue_sync_operation (_process_sync_queue one_failed commits)
               (at_time "2024-05-02 08:00:00" commits)
               "users" "DELETE" "u1" []).2) as Hsteps.
  { eapply steps_cons; [apply step_tick|].
    eapply steps_cons; [apply step_enqueue|]. apply steps_refl. }
  assert (row_of 1 (sync_queue (offline one_failed)) = Some failed_row) as Hrow
    by (vm_compute; reflexivity).
  assert (terminal failed_row) as Hterm by (right; reflexivity).
  destruct (terminal_rows_are_final one_failed _ 1 failed_row analytics_one
              true [1] synced_event 0%nat synced_event
              reachable_one_failed Hsteps Hrow Hterm eq_refl eq_refl)
    as (H1 & H2 & _).
  exact (conj H1 H2).
Defined.

(** *** Enqueueing *)



(** An attempt changes the status and the retry count of a row and
    nothing else. *)
Lemma after_tick_payload st env r :
  table_name (after_tick st env r) = table_name r ∧
  operation (after_tick st env r) = operation r ∧
  record_id (after_tick st env r) = record_id r ∧
  data (after_tick st env r) = data r ∧
  created_at (after_tick st env r) = created_at r.
Proof.
  unfold after_tick, tick_row, apply_row.
  repeat case_match; simpl; done.
Qed.




(** *** Storage failures *)

(** C6 (amended). [queue_sync_operation] returns [False] exactly when
    its own INSERT fails (as it does when the table is missing), and
    then leaves the manager as it was; a
    storage failure inside the nested [_process_sync_queue] does not
    change what it returns. [OfflineManager.queue_action] returns
    normally whether or not its INSERT fails: the action is then in the
    in-memory deque only. *)
Theorem storage_failure_reporting (st : db_state) (env : enqueue_env)
    (tn op rid : string) (dat : json_dict)
    (m : OfflineMgr.mgr_state) (db_ok : bool) (a : string) (d : json_dict) :
  (queue_sync_operation st env tn op rid dat).1 =
    insert_ok env && tables_created (offline st) ∧
  (queue_sync_operation st
     {| insert_ok := false; now := now env; tick := tick env |}
     tn op rid dat).2 = st ∧
  (OfflineMgr.queue_action m db_ok a d).1 = Returned () ∧
  OfflineMgr.queue (OfflineMgr.queue_action m db_ok a d).2 =
    OfflineMgr.queue m ++ [(a, d)] ∧
  OfflineMgr.offline_queue (OfflineMgr.queue_action m false a d).2 =
    OfflineMgr.offline_queue m.
Proof.
  unfold queue_sync_operation, OfflineMgr.queue_action. simpl.
  split_and!; try done.
  - by destruct (insert_ok env), (tables_created (offline st)).
  - by destruct db_ok.
  - by destruct db_ok.
Qed.

(** C6, counterexample. [queue_action] whose INSERT raises returns as
    the successful call does, with no row written; and
    [queue_sync_operation] returns [True] although the replay it started
    could not read SQLite and left the row pending. *)
Lemma storage_failure_is_swallowed :
  (OfflineMgr.queue_action mgr_empty false "create_post" payload).1 =
    (OfflineMgr.queue_action mgr_empty true "create_post" payload).1 ∧
  (OfflineMgr.queue_action mgr_empty false "create_post" payload).1 =
    Returned () ∧
  OfflineMgr.offline_queue
    (OfflineMgr.queue_action mgr_empty false "create_post" payload).2 = [] ∧
  (queue_sync_operation started (at_time "2024-05-01 10:00:00" sqlite_down)
     "users" "UPDATE" "u1" payload).1 = true ∧
  status <$> sync_queue (offline
    (queue_sync_operation started (at_time "2024-05-01 10:00:00" sqlite_down)
       "users" "UPDATE" "u1" payload).2) = ["pending"].
Proof. vm_compute. auto. Qed.

(** *** The cache *)

(** C7 (amended). [cache_set] writes one store only. With a Redis client
    configured it writes Redis and never the local table, and returns
    [False] with nothing stored anywhere when the Redis command raises;
    without a client it writes the local table, when SQLite answers and
    the expiry instant has a value. *)
Theorem cache_set_writes_one_store (st : Cache.cache_state)
    (env : Cache.cache_env) (key : string) (v : json_value) (ttl : Z) :
  let row := {| Cache.value := v; Cache.expires_at := Cache.utcnow env + ttl |} in
  Cache.cache_set st env key v ttl =
    (if Cache.async_redis_client st then Cache.redis_ok env
     else Cache.sqlite_ok env && Cache.expires_ok env ttl,
     {| Cache.async_redis_client := Cache.async_redis_client st;
        Cache.redis :=
          if Cache.async_redis_client st && Cache.redis_ok env
          then <[key := row]> (Cache.redis st) else Cache.redis st;
        Cache.app_cache :=
          if negb (Cache.async_redis_client st) && Cache.sqlite_ok env
             && Cache.expires_ok env ttl
          then <[key := row]> (Cache.app_cache st) else Cache.app_cache st |}).
Proof.
  unfold Cache.cache_set, Cache._offline_cache_set. destruct st as [c r a].
  cbn [Cache.async_redis_client Cache.redis Cache.app_cache].
  destruct c, (Cache.redis_ok env), (Cache.sqlite_ok env),
    (Cache.expires_ok env ttl); reflexivity.
Qed.

(** C7, counterexample. With a Redis client configured, a write leaves
    the local store empty, whether Redis takes it or is unreachable; in
    the second case the value is nowhere. *)
Lemma cache_write_misses_local_store :
  Cache.app_cache (Cache.cache_set cache_with_redis redis_up "k" (JInt 1) 60).2
    !! "k" = None ∧
  Cache.cache_set cache_with_redis redis_down "k" (JInt 1) 60
    = (false, cache_with_redis) ∧
  Cache._offline_cache_get
    (Cache.cache_set cache_with_redis redis_down "k" (JInt 1) 60).2
    redis_down "k" = None.
Proof. vm_compute. auto. Qed.

(** *** Draining *)

(** C8 (amended). Every run of [_process_sync_queue] is a loop over a
    finite batch and ends; once a reachable, online manager has made
    three runs in which SQLite answers, every row is ['synced'] or
    ['failed'], whatever the sessions did. No delay enters: the code has
    no backoff. [OfflineManager.process_queue] ends, with an empty
    deque, after one iteration per queued action when every action
    succeeds and its row can be deleted. *)
Theorem queues_drain_when_attempts_end st envs n
    (m : OfflineMgr.mgr_state) (ienvs : nat -> OfflineMgr.iter_env)
    (clock : Z) :
  reachable st -> is_offline_mode st = false ->
  (forall k, sqlite_fails_after (envs k) = None) ->
  (3 <= n)%nat ->
  (forall j, OfflineMgr.delete_ok (ienvs j) = true) ->
  Forall terminal (sync_queue (offline (run_ticks envs n st))) ∧
  exists t,
    OfflineMgr.process_queue OfflineMgr._execute_action ienvs clock
      (S (length (OfflineMgr.queue m))) m =
    OfflineMgr.Finished
      {| OfflineMgr.queue := []; OfflineMgr.offline_queue := t;
         OfflineMgr.next_id := OfflineMgr.next_id m;
         OfflineMgr.last_sync := clock |}.
Proof.
  intros Hst Hon Hsql Hn Hdel. split.
  - pose proof (reachable_inv st Hst) as Hinv.
    destruct (run_ticks_frame envs n st Hinv) as [(_ & _ & Hrows & _) _].
    pose proof (run_ticks_budget envs n st Hinv Hon Hsql) as Hb.
    rewrite Forall_forall in Hrows, Hb. apply Forall_forall. intros r Hr.
    apply spent_is_terminal; [by apply Hrows|].
    specialize (Hb r Hr). simpl in Hb. lia.
  - by apply process_queue_drains.
Qed.

Lemma queues_drain_when_attempts_end_witness :
  Forall terminal
    (sync_queue (offline (run_ticks (fun _ => commit_fails) 3 one_failing))) ∧
  exists t,
    OfflineMgr.process_queue OfflineMgr._execute_action db_fine 77
      (S (length (OfflineMgr.queue mgr_one))) mgr_one =
    OfflineMgr.Finished
      {| OfflineMgr.queue := []; OfflineMgr.offline_queue := t;
         OfflineMgr.next_id := OfflineMgr.next_id mgr_one;
         OfflineMgr.last_sync := 77 |}.
Proof.
  assert (reachable one_failing) as Hreach.
  { exact (reach_step _ _ reachable_started
             (step_enqueue _ (at_time "2024-05-01 10:00:00" commit_fails)
                "users" "UPDATE" "u1" payload)). }
  apply (queues_drain_when_attempts_end one_failing (fun _ => commit_fails) 3
           mgr_one db_fine 77 Hreach).
  - reflexivity.
  - intros k. reflexivity.
  - lia.
  - intros j. reflexivity.
Defined.

(** C8, counterexample. [process_queue] on a deque of one action never
    ends when the action keeps reporting failure: after any number of
    iterations the loop is still running. The same holds with the
    placeholder [_execute_action] of the class when the DELETE keeps
    raising while the attempt counter can be written. *)
Lemma process_queue_requeues_forever :
  (forall fuel, exists st',
     OfflineMgr.process_queue always_false db_fine 0 fuel mgr_one =
       OfflineMgr.StillRunning st') ∧
  (forall fuel, exists st',
     OfflineMgr.process_queue OfflineMgr._execute_action delete_denied 0 fuel
       mgr_one = OfflineMgr.StillRunning st').
Proof.
  split; intros fuel.
  - destruct (process_queue_never_drains db_fine 0 fuel 0%nat mgr_one)
      as (st' & _ & H); [done|done|]. by exists st'.
  - destruct (process_queue_never_drains_delete delete_denied 0 fuel 0%nat
                mgr_one) as (st' & _ & H); [done|done|]. by exists st'.
Qed.

(** *** The replay applies nothing *)

(** C9. [_execute_sync_operation] returns the main database as it found
    it for every operation kind; so, with the manager online, the session
    factory set, SQLite answering and every session committing, a run of
    [_process_sync_queue] marks every pending row that has retry budget
    left ['synced'], changes no other row, and leaves the main database
    untouched. *)
Theorem synced_without_remote_write st env :
  NoDup (id <$> sync_queue (offline st)) ->
  is_offline_mode st = false -> async_session_factory st = true ->
  tables_created (offline st) = true -> sqlite_fails_after env = None ->
  (forall rid, commit_ok env rid = true ∧ mark_synced_ok env rid = true) ->
  sync_queue (offline (_process_sync_queue st env)) =
    (fun r => if decide (eligible r) then set_status "synced" r else r)
      <$> sync_queue (offline st) ∧
  main_db (_process_sync_queue st env) = main_db st ∧
  forall dbv op, _execute_sync_operation st true dbv op = Returned dbv.
Proof.
  intros Hkey Hon Hfac Hcreated Hsql Hcommit. split_and!.
  - rewrite process_sync_queue_table by done. rewrite Hon, Hcreated, Hsql.
    unfold tick_table, after_tick, tick_row, apply_row, exec_ok, exec_returns.
    apply list_fmap_ext. intros i r _. simpl.
    destruct (Hcommit (id r)) as [-> ->]. by rewrite Hon, Hfac.
  - by destruct (process_sync_queue_frame st env) as (_ & _ & _ & _ & ?).
  - intros dbv op. rewrite execute_sync_operation_spec.
    by rewrite Hon, Hfac.
Qed.

Lemma synced_without_remote_write_witness :
  status <$> sync_queue (offline (_process_sync_queue two_pending commits))
    = ["synced"; "synced"] ∧
  main_db (_process_sync_queue two_pending commits) = main_db two_pending ∧
  forall dbv op, _execute_sync_operation two_pending true dbv op = Returned dbv.
Proof.
  assert (NoDup (id <$> sync_queue (offline two_pending))) as Hkey.
  { apply (bool_decide_unpack _). vm_compute. exact I. }
  destruct (synced_without_remote_write two_pending commits Hkey
              eq_refl eq_refl eq_refl eq_refl (fun _ => conj eq_refl eq_refl))
    as (H1 & H2 & H3).
  split_and!; [|exact H2|exact H3].
  rewrite H1. vm_compute. reflexivity.
Defined.

(** *** The social offline queue *)

(** C10 (amended). Every call of [process_offline_queue] ends in its
    outer handler on the [NameError] for [updated_queue] and returns the
    error summary; the call never writes the file itself, so the file it
    leaves keeps every item it held (the only change being what
    [publish_to_platforms] queued behind them). A call visits the items
    of the user in order, up to the first one whose publishing raises a
    [SocialServiceError] or an error that names a network problem, and
    sends the posts of the visited items that publish. A post that went
    out is therefore sent again by a later call when the loop of that
    call reaches it, as it does when publishing behaves as before, and
    not otherwise. *)
Theorem process_offline_queue_always_fails
    (unicode_lower : string -> string)
    (publish : string -> json_dict -> Social.publish_outcome)
    (file : gmap string (list Social.queue_item)) (user_id : string) :
  Social.reachable_file file ->
  Social.returned
    (Social.process_offline_queue unicode_lower publish file user_id) =
    {| Social.r_processed := 0; Social.r_failed := 0;
       Social.r_remaining := 0;
       Social.r_error := Some "name 'updated_queue' is not defined" |} ∧
  Social.file_extends user_id file
    (Social.file_after
       (Social.process_offline_queue unicode_lower publish file user_id)) ∧
  Social.sent
    (Social.process_offline_queue unicode_lower publish file user_id) =
    Social.post <$>
      filter (fun it => Social.goes_out publish user_id it = true)
        (Social.before_first
           (Social.leaves_loop unicode_lower publish user_id)
           (Social.user_queue_of file user_id)) ∧
  Social.sent
    (Social.process_offline_queue unicode_lower publish file user_id)
    `prefix_of`
  Social.sent
    (Social.process_offline_queue unicode_lower publish
       (Social.file_after
          (Social.process_offline_queue unicode_lower publish file user_id))
       user_id).
Proof.
  intros Hfile. pose proof (reachable_file_inv file Hfile) as Hinv.
  split_and!.
  - apply process_offline_queue_error.
  - apply process_offline_queue_file.
  - by apply process_offline_queue_sent.
  - by apply process_offline_queue_sent_again.
Qed.

Lemma reachable_alice_two : Social.reachable_file alice_two.
Proof.
  exact (Social.file_queued alice_file "alice" goodbye "q-2"
           "2024-05-01T10:05:00" reachable_alice_file).
Qed.

Lemma process_offline_queue_always_fails_witness :
  Social.reachable_file alice_two ∧
  Social.r_error
    (Social.returned
       (Social.process_offline_queue no_unicode_lower publish_ok alice_two
          "alice"))
    = Some "name 'updated_queue' is not defined" ∧
  Social.sent
    (Social.process_offline_queue no_unicode_lower publish_ok alice_two
       "alice") = [hello; goodbye].
Proof.
  destruct (process_offline_queue_always_fails no_unicode_lower publish_ok
              alice_two "alice" reachable_alice_two) as (H1 & _ & H3 & _).
  split; [exact reachable_alice_two|]. split.
  - rewrite H1. reflexivity.
  - rewrite H3. vm_compute. reflexivity.
Defined.

(** C10, counterexample. Two posts of one user are queued and a first
    call sends both. At the second call the first post meets a timeout:
    the last handler takes it for a network error and reads
    [updated_queue], the loop is left, and the second post, which went
    out at the first call and is still in the file, is not sent again. *)
Lemma published_post_is_not_sent_again :
  let first := Social.process_offline_queue no_unicode_lower publish_ok
                 alice_two "alice" in
  let second := Social.process_offline_queue no_unicode_lower
                  first_post_times_out (Social.file_after first) "alice" in
  Social.sent first = [hello; goodbye] ∧
  Social.file_after first = alice_two ∧
  Social.post <$> Social.user_queue_of (Social.file_after second) "alice"
    = [hello; goodbye] ∧
  Social.sent second = [] ∧
  Social.r_error (Social.returned second)
    = Some "name 'updated_queue' is not defined".
Proof. vm_compute. repeat split; reflexivity. Qed.

End Claims.

(** * Further properties of [DatabaseManager] *)

Section MoreSyncQueue.
Import SyncQueue Run Monitor.

(** X1. When the first start of the manager on a new SQLite file fails
    before [_setup_offline_database] has run (the main database, or the
    Redis set-up, or the creation of the offline tables raises), the
    manager is in offline mode with no [sync_queue] table: every
    [queue_sync_operation] returns [False] and stores nothing. *)
Theorem offline_queue_needs_first_setup env db0 eenv tn op rid d :
  setup_main env ≠ MainReady ∨ setup_redis_ok env = false ∨
    setup_offline_ok env = false ->
  let st := initialize env (new_manager empty_disk db0) in
  is_offline_mode st = true ∧
  tables_created (offline st) = false ∧
  queue_sync_operation st eenv tn op rid d = (false, st).
Proof.
  intros Hfail. cbv zeta.
  assert (is_offline_mode (initialize env (new_manager empty_disk db0)) = true
          ∧ tables_created
              (offline (initialize env (new_manager empty_disk db0))) = false)
    as [Hoff Hnone].
  { unfold initialize.
    destruct (setup_main env) eqn:Em; [|done|done].
    destruct Hfail as [?|[Hr|Ho]]; [done| |].
    - by rewrite Hr.
    - rewrite Ho. by destruct (setup_redis_ok env). }
  split_and!; [done|done|].
  unfold queue_sync_operation. rewrite Hnone.
  by destruct (insert_ok eenv).
Qed.

Lemma offline_queue_needs_first_setup_witness :
  queue_sync_operation
    (initialize {| setup_main := MainFailsBeforeFactory; setup_redis_ok := true;
                   setup_offline_ok := true; test_connections_ok := true |}
       (new_manager empty_disk ∅))
    (at_time "2024-05-01 10:00:00" commits) "users" "UPDATE" "u1" payload
  = (false,
     initialize {| setup_main := MainFailsBeforeFactory; setup_redis_ok := true;
                   setup_offline_ok := true; test_connections_ok := true |}
       (new_manager empty_disk ∅)).
Proof.
  apply (offline_queue_needs_first_setup
           {| setup_main := MainFailsBeforeFactory; setup_redis_ok := true;
              setup_offline_ok := true; test_connections_ok := true |}
           ∅ (at_time "2024-05-01 10:00:00" commits) "users" "UPDATE" "u1"
           payload).
  left. discriminate.
Defined.

Lemma filter_none {A} (P : A -> Prop) `{forall x, Decision (P x)} (l : list A) :
  Forall (fun x => ¬ P x) l -> filter P l = [].
Proof.
  induction 1 as [|x l Hx _ IH]; [done|].
  rewrite filter_cons. by rewrite decide_False.
Qed.

Lemma process_sync_queue_offline st env :
  is_offline_mode st = true -> _process_sync_queue st env = st.
Proof.
  intros H. unfold _process_sync_queue, process_sync_queue_traced.
  by rewrite H.
Qed.

(** X2. Offline mode ends only with a restart, and while it lasts
    nothing is attempted: after any sequence of enqueues and runs of
    [_process_sync_queue] on an offline manager, the manager is still
    offline, the main database and every row it had are unchanged, and
    the rows added are all ['pending'] with no attempt made. *)
Theorem offline_mode_never_attempts st st' :
  is_offline_mode st = true -> queue_steps st st' ->
  is_offline_mode st' = true ∧ main_db st' = main_db st ∧
  exists added,
    sync_queue (offline st') = sync_queue (offline st) ++ added ∧
    Forall (fun r => status r = "pending" ∧ retry_count r = 0) added.
Proof.
  intros Hoff Hsteps.
  induction Hsteps as [st|st st' env tn op rid d _ IH|st st' env _ IH].
  - split_and!; [done|done|]. exists []. by rewrite app_nil_r.
  - destruct (IH Hoff) as (Hoff' & Hdb & added & Hrows & Hadded).
    unfold queue_sync_operation.
    destruct (insert_ok env && tables_created (offline st')); simpl.
    + rewrite Hoff'. simpl. split_and!; [done|done|].
      eexists (added ++ [_]). rewrite Hrows, app_assoc. split; [done|].
      apply Forall_app. split; [done|]. by apply Forall_singleton.
    + split_and!; [done|done|]. by exists added.
  - destruct (IH Hoff) as (Hoff' & Hdb & added & Hrows & Hadded).
    rewrite process_sync_queue_offline by done.
    split_and!; [done|done|]. by exists added.
Qed.

Lemma offline_mode_never_attempts_witness :
  is_offline_mode MoreRuns.queued_offline = true ∧
  sync_queue (offline MoreRuns.queued_offline) = [MoreRuns.pending_row].
Proof.
  assert (queue_steps MoreRuns.started_offline MoreRuns.queued_offline)
    as Hsteps.
  { apply qsteps_tick, qsteps_enqueue, qsteps_refl. }
  destruct (offline_mode_never_attempts MoreRuns.started_offline
              MoreRuns.queued_offline eq_refl Hsteps) as (H1 & _ & _).
  split; [exact H1|]. vm_compute. reflexivity.
Defined.

(** X3. An enqueue made while everything answers empties the backlog:
    when the manager is online with its session factory set, the INSERT
    goes through and the replay it starts meets no error, the call
    returns [True] and leaves no ['pending'] row at all, the new row
    being ['synced'] under the id the counter held. *)
Theorem healthy_enqueue_flushes_backlog st env tn op rid d cst pool now_ :
  reachable st -> is_offline_mode st = false ->
  async_session_factory st = true -> tables_created (offline st) = true ->
  insert_ok env = true -> sqlite_fails_after (tick env) = None ->
  (forall i, commit_ok (tick env) i = true ∧ mark_synced_ok (tick env) i = true) ->
  let r := queue_sync_operation st env tn op rid d in
  r.1 = true ∧
  Forall terminal (sync_queue (offline r.2)) ∧
  row_of (next_rowid (offline st)) (sync_queue (offline r.2)) =
    Some {| id := next_rowid (offline st); table_name := tn; operation := op;
            record_id := rid; data := d; created_at := now env;
            retry_count := 0; max_retries := 3; status := "synced" |} ∧
  pending_sync_operations (get_database_stats r.2 cst pool now_ None) = 0%nat.
Proof.
  intros Hst Hon Hfac Hcreated Hins Hsql Hok. cbv zeta.
  pose proof (reachable_inv st Hst) as Hinv.
  pose proof (insert_row_inv (offline st) (now env) tn op rid d Hcreated Hinv)
    as Hinv1.
  unfold queue_sync_operation. rewrite Hins, Hcreated. simpl. rewrite Hon. simpl.
  set (st1 := {| is_offline_mode := false;
                 async_session_factory := async_session_factory st;
                 offline := insert_row (offline st) (now env) tn op rid d;
                 main_db := main_db st |}).
  assert (sync_queue (offline (_process_sync_queue st1 (tick env))) =
          (fun r => if decide (eligible r) then set_status "synced" r else r)
            <$> sync_queue (offline st1)) as Htbl.
  { rewrite process_sync_queue_table by apply Hinv1. simpl.
    rewrite Hcreated, Hsql. simpl.
    unfold tick_table, after_tick, tick_row, apply_row, exec_ok, exec_returns.
    apply list_fmap_ext. intros i r _. simpl.
    destruct (Hok (id r)) as [-> ->]. by rewrite Hfac. }
  assert (Forall terminal (sync_queue (offline (_process_sync_queue st1 (tick env)))))
    as Hterm.
  { rewrite Htbl. apply Forall_fmap, Forall_forall. intros r Hr. simpl.
    destruct Hinv1 as (_ & _ & Hrows & _). rewrite Forall_forall in Hrows.
    specialize (Hrows r Hr).
    destruct (decide (eligible r)) as [He|He]; [by left|].
    pose proof Hrows as ([Hp|[?|?]] & _); [|by left|by right].
    exfalso. by apply He, pending_is_eligible. }
  split_and!; [done|exact Hterm| |].
  - rewrite Htbl. rewrite row_of_fmap by (intros x; by case_decide).
    assert (row_of (next_rowid (offline st)) (sync_queue (offline st1)) =
            Some {| id := next_rowid (offline st); table_name := tn;
                    operation := op; record_id := rid; data := d;
                    created_at := now env; retry_count := 0;
                    max_retries := 3; status := "pending" |}) as ->.
    { unfold row_of. simpl. rewrite filter_app.
      destruct Hinv as (_ & Hlt & _).
      assert (filter (fun r => id r = next_rowid (offline st))
                (sync_queue (offline st)) = []) as ->.
      { apply filter_none. eapply Forall_impl; [exact Hlt|].
        intros r Hr. simpl in Hr. lia. }
      simpl. rewrite filter_cons, filter_nil. by rewrite decide_True. }
    reflexivity.
  - unfold get_database_stats, count_status. simpl.
    destruct (process_sync_queue_frame st1 (tick env)) as (_ & _ & -> & _).
    simpl. rewrite Hcreated. simpl.
    rewrite filter_none; [done|].
    eapply Forall_impl; [exact Hterm|].
    intros r [H|H] Hp; rewrite H in Hp; discriminate.
Qed.

Lemma reachable_one_failing : reachable one_failing.
Proof.
  exact (reach_step _ _ reachable_started
           (step_enqueue _ (at_time "2024-05-01 10:00:00" commit_fails)
              "users" "UPDATE" "u1" payload)).
Qed.

Lemma healthy_enqueue_flushes_backlog_witness :
  (queue_sync_operation one_failing (at_time "2024-05-01 10:05:00" commits)
     "users" "DELETE" "u2" []).1 = true ∧
  Forall terminal
    (sync_queue (offline
       (queue_sync_operation one_failing (at_time "2024-05-01 10:05:00" commits)
          "users" "DELETE" "u2" []).2)).
Proof.
  destruct (healthy_enqueue_flushes_backlog one_failing
              (at_time "2024-05-01 10:05:00" commits) "users" "DELETE" "u2" []
              MoreRuns.cache_local 5 0 reachable_one_failing
              eq_refl eq_refl eq_refl eq_refl eq_refl
              (fun _ => conj eq_refl eq_refl)) as (H1 & H2 & _).
  exact (conj H1 H2).
Defined.

Lemma count_status_fmap_mono s (f : sync_row -> sync_row) t :
  (forall r, r ∈ t -> status r = s -> status (f r) = s) ->
  (count_status s t <= count_status s (f <$> t))%nat.
Proof.
  unfold count_status. induction t as [|x t IH]; intros Hf; [done|].
  rewrite fmap_cons, !filter_cons.
  assert (length (filter (fun r => status r = s) t)
          <= length (filter (fun r => status r = s) (f <$> t)))%nat as Hle.
  { apply IH. intros r Hr. apply Hf. by right. }
  destruct (decide (status x = s)) as [Hx|Hx].
  - rewrite decide_True by (apply Hf; [by left|done]). simpl. lia.
  - case_decide; simpl; lia.
Qed.

Lemma tick_table_failed_count st env t :
  (count_status "failed" t <= count_status "failed" (tick_table st env t))%nat.
Proof.
  unfold tick_table. apply count_status_fmap_mono.
  intros r _ Hr. unfold after_tick.
  rewrite decide_False; [done|]. apply terminal_not_eligible. by right.
Qed.

Lemma process_sync_queue_failed_count st env :
  NoDup (id <$> sync_queue (offline st)) ->
  (count_status "failed" (sync_queue (offline st)) <=
   count_status "failed" (sync_queue (offline (_process_sync_queue st env))))%nat
  ∧ length (sync_queue (offline (_process_sync_queue st env))) =
    length (sync_queue (offline st)).
Proof.
  intros Hkey. rewrite process_sync_queue_table by done.
  destruct (is_offline_mode st); [done|].
  destruct (tables_created (offline st)); [|done]. simpl.
  destruct (sqlite_fails_after env); [done|].
  split; [apply tick_table_failed_count|].
  unfold tick_table. apply length_fmap.
Qed.

Lemma engine_step_counts st st' :
  queue_inv (offline st) -> engine_step st st' ->
  (count_status "failed" (sync_queue (offline st)) <=
   count_status "failed" (sync_queue (offline st')))%nat ∧
  (length (sync_queue (offline st)) <= length (sync_queue (offline st')))%nat ∧
  (tables_created (offline st) = true -> tables_created (offline st') = true).
Proof.
  intros Hinv Hstep. destruct Hstep as [st env tn op rid d|st env|st env].
  - unfold queue_sync_operation. destruct (insert_ok env); simpl; [|done].
    destruct (tables_created (offline st)) eqn:C; [|done]. simpl.
    pose proof (insert_row_inv (offline st) (now env) tn op rid d C Hinv)
      as (Hkey & _).
    assert (count_status "failed" (sync_queue (offline st)) <=
            count_status "failed"
              (sync_queue (insert_row (offline st) (now env) tn op rid d)))%nat
      as Hc.
    { unfold count_status, insert_row. simpl. rewrite filter_app, length_app. lia. }
    assert (length (sync_queue (offline st)) <=
            length (sync_queue (insert_row (offline st) (now env) tn op rid d)))%nat
      as Hl.
    { unfold insert_row. simpl. rewrite length_app. lia. }
    destruct (is_offline_mode st); simpl; [done|].
    match goal with |- context [_process_sync_queue ?s ?e] =>
      destruct (process_sync_queue_failed_count s e Hkey) as [Hc' Hl'];
      destruct (process_sync_queue_frame s e) as (_ & _ & Hcr & _) end.
    simpl in *. rewrite Hl', Hcr. split_and!; [lia|lia|done].
  - destruct Hinv as (Hkey & _).
    destruct (process_sync_queue_failed_count st env Hkey) as [Hc Hl].
    destruct (process_sync_queue_frame st env) as (_ & _ & Hcr & _).
    rewrite Hl, Hcr. split_and!; [done|lia|done].
  - destruct (restart_queue env st Hinv) as (_ & -> & _).
    split_and!; [done|done|].
    intros C. unfold restart.
    destruct (initialize_offline env (new_manager (offline st) (main_db st)))
      as [-> | ->]; simpl; [done|].
    unfold _setup_offline_database. by rewrite C.
Qed.

Lemma after_tick_identity st env r :
  identity_of (after_tick st env r) = identity_of r.
Proof.
  unfold identity_of.
  destruct (after_tick_payload st env r) as (-> & -> & -> & -> & ->).
  f_equal. unfold after_tick. case_decide; [|done].
  by rewrite tick_row_id.
Qed.

Lemma process_sync_queue_identity st env :
  NoDup (id <$> sync_queue (offline st)) ->
  identity_of <$> sync_queue (offline (_process_sync_queue st env)) =
    identity_of <$> sync_queue (offline st).
Proof.
  intros Hkey. rewrite process_sync_queue_table by done.
  destruct (is_offline_mode st); [done|].
  destruct (tables_created (offline st)); [|done]. simpl.
  destruct (sqlite_fails_after env); [done|].
  unfold tick_table. rewrite <- list_fmap_compose. apply list_fmap_ext.
  intros i r _. apply after_tick_identity.
Qed.

(** A step of the engine keeps every queued operation, in its place. *)
Lemma engine_step_identity st st' :
  queue_inv (offline st) -> engine_step st st' ->
  identity_of <$> sync_queue (offline st)
    `prefix_of` identity_of <$> sync_queue (offline st').
Proof.
  intros Hinv Hstep. destruct Hstep as [st env tn op rid d|st env|st env].
  - unfold queue_sync_operation. destruct (insert_ok env); simpl; [|done].
    destruct (tables_created (offline st)) eqn:C; [|done]. simpl.
    pose proof (insert_row_inv (offline st) (now env) tn op rid d C Hinv)
      as (Hkey & _).
    destruct (is_offline_mode st); simpl.
    + rewrite fmap_app. by eexists.
    + rewrite process_sync_queue_identity by done. simpl.
      rewrite fmap_app. by eexists.
  - destruct Hinv as (Hkey & _). by rewrite process_sync_queue_identity.
  - by destruct (restart_queue env st Hinv) as (_ & -> & _).
Qed.

(** X4. Failures accumulate: along any sequence of enqueues, runs and
    restarts from a reachable state, the [failed_sync_operations] count
    that [get_database_stats] reads never goes down, and no row ever
    leaves the table: the rows of the start are the first rows of the
    end, each under its id, with its table name, operation, record id,
    data and creation time. *)
Theorem failed_count_never_decreases st st' cst cst' pool pool' t t' :
  reachable st -> engine_steps st st' ->
  (failed_sync_operations (get_database_stats st cst pool t None) <=
   failed_sync_operations (get_database_stats st' cst' pool' t' None))%nat ∧
  identity_of <$> sync_queue (offline st)
    `prefix_of` identity_of <$> sync_queue (offline st').
Proof.
  intros Hst Hsteps. pose proof (reachable_inv st Hst) as Hinv. clear Hst.
  assert ((count_status "failed" (sync_queue (offline st)) <=
           count_status "failed" (sync_queue (offline st')))%nat ∧
          identity_of <$> sync_queue (offline st)
            `prefix_of` identity_of <$> sync_queue (offline st') ∧
          (tables_created (offline st) = true ->
           tables_created (offline st') = true)) as (Hc & Hl & Hcr).
  { induction Hsteps as [|st st' st'' Hstep _ IH]; [done|].
    destruct (engine_step_counts st st' Hinv Hstep) as (H1 & _ & H3).
    pose proof (engine_step_identity st st' Hinv Hstep) as H2.
    destruct (IH (engine_step_inv st st' Hstep Hinv)) as (I1 & I2 & I3).
    split_and!; [lia|by etrans|auto]. }
  split; [|done]. unfold get_database_stats. simpl.
  destruct (tables_created (offline st)); simpl; [|lia].
  by rewrite Hcr.
Qed.

Lemma failed_count_never_decreases_witness :
  (failed_sync_operations
     (get_database_stats one_failing MoreRuns.cache_local 5 0 None) <=
   failed_sync_operations
     (get_database_stats one_failed MoreRuns.cache_local 5 0 None))%nat ∧
  identity_of <$> sync_queue (offline one_failing)
    `prefix_of` identity_of <$> sync_queue (offline one_failed).
Proof.
  assert (engine_steps one_failing one_failed) as Hsteps.
  { eapply steps_cons; [apply step_tick|].
    eapply steps_cons; [apply step_tick|]. apply steps_refl. }
  exact (failed_count_never_decreases one_failing one_failed
           MoreRuns.cache_local MoreRuns.cache_local 5 5 0 0
           reachable_one_failing Hsteps).
Defined.

(** X5. [health_check] reports ['healthy'] exactly when every probe it
    ran answered: the main database is probed only when the manager is
    not in offline mode, Redis only when a client is configured. So a
    report can be ['healthy'] with [main_db] false (offline mode), and a
    commit that fails after the [SELECT 1] gives ['unhealthy'] with
    [main_db] true. *)
Theorem health_report_reads (st : db_state) (cst : Cache.cache_state)
    (env : probe_env) :
  let h := health_check st cst env in
  let main_answers :=
    async_session_factory st && select_ok env && session_commit_ok env in
  (h_status h = "healthy" <->
   (is_offline_mode st || main_answers) &&
   (negb (Cache.async_redis_client cst) || ping_ok env) &&
   sqlite_probe_ok env = true) ∧
  (h_status h = "healthy" ∨ h_status h = "unhealthy") ∧
  h_offline_db h = bool_decide (h_status h = "healthy") ∧
  (h_error h = None <-> h_status h = "healthy") ∧
  h_main_db h =
    negb (is_offline_mode st) && async_session_factory st && select_ok env.
Proof.
  unfold health_check.
  destruct (is_offline_mode st), (async_session_factory st), (select_ok env),
    (session_commit_ok env), (Cache.async_redis_client cst), (ping_ok env),
    (sqlite_probe_ok env); simpl; split_and!; try done; auto.
Qed.

End MoreSyncQueue.

(** * Further properties of the cache *)

Section MoreCache.
Import Cache CacheOps Monitor.

(** X6. Without a Redis client and with SQLite answering, [cache_set]
    returns [True] exactly when the expiry instant, the clock plus the
    TTL, has a value as a [datetime]. The value written is then what
    [cache_get] returns for that key until the clock reaches that
    instant, and nothing from then on, so a TTL of zero or less is never
    readable. With a TTL that takes the expiry out of range, [cache_set]
    returns [False] and reads are as before. *)
Theorem local_cache_round_trip st env env' key v ttl :
  async_redis_client st = false ->
  sqlite_ok env = true -> sqlite_ok env' = true ->
  (cache_set st env key v ttl).1 = expires_ok env ttl ∧
  cache_get (cache_set st env key v ttl).2 env' key =
    if expires_ok env ttl
    then (if decide (utcnow env' < utcnow env + ttl) then Some v else None)
    else cache_get st env' key.
Proof.
  intros Hc Hs Hs'. unfold cache_set, _offline_cache_set. rewrite Hc, Hs.
  destruct (expires_ok env ttl); cbn [andb fst snd]; [|done].
  unfold cache_get, _offline_cache_get. cbn [async_redis_client app_cache].
  rewrite ?Hc, Hs', lookup_insert_eq. simpl. rewrite ?Hc.
  split; [done|]. repeat case_decide; done || lia.
Qed.

Lemma local_cache_round_trip_witness :
  cache_get (cache_set MoreRuns.cache_local (MoreRuns.clock 1000) "k"
               (JStr "v") 60).2 (MoreRuns.clock 1059) "k" = Some (JStr "v") ∧
  cache_get (cache_set MoreRuns.cache_local (MoreRuns.clock 1000) "k"
               (JStr "v") 60).2 (MoreRuns.clock 1060) "k" = None ∧
  (cache_set MoreRuns.cache_local (MoreRuns.clock 1000) "k" (JStr "v")
     (10 ^ 18)).1 = false.
Proof.
  split_and!.
  - exact (proj2 (local_cache_round_trip MoreRuns.cache_local
                    (MoreRuns.clock 1000) (MoreRuns.clock 1059) "k" (JStr "v")
                    60 eq_refl eq_refl eq_refl)).
  - exact (proj2 (local_cache_round_trip MoreRuns.cache_local
                    (MoreRuns.clock 1000) (MoreRuns.clock 1060) "k" (JStr "v")
                    60 eq_refl eq_refl eq_refl)).
  - exact (proj1 (local_cache_round_trip MoreRuns.cache_local
                    (MoreRuns.clock 1000) (MoreRuns.clock 1000) "k" (JStr "v")
                    (10 ^ 18) eq_refl eq_refl eq_refl)).
Defined.

(** X7. A [cache_delete] that returns [True] makes the next [cache_get]
    of that key return nothing, whether the cache is Redis or the local
    table and whether or not the key was there, and one that returns
    [False] changes nothing; reads of every other key are as before,
    after a delete and after a write. *)
Theorem cache_delete_then_get st env env' key key' v ttl :
  key ≠ key' ->
  cache_get (cache_delete st env key).2 env' key =
    (if (cache_delete st env key).1 then None else cache_get st env' key) ∧
  cache_get (cache_delete st env key).2 env' key' = cache_get st env' key' ∧
  cache_get (cache_set st env key v ttl).2 env' key' = cache_get st env' key'.
Proof.
  intros Hne. unfold cache_delete, _offline_cache_delete, cache_set,
    _offline_cache_set, cache_get, _offline_cache_get.
  destruct (async_redis_client st) eqn:Hc.
  - destruct (redis_ok env); simpl; rewrite ?Hc; [|done].
    destruct (redis_ok env'); [|done].
    by rewrite lookup_delete_eq, lookup_delete_ne, lookup_insert_ne.
  - destruct (sqlite_ok env), (expires_ok env ttl); simpl; rewrite ?Hc;
      try done;
      (destruct (sqlite_ok env'); [|done]);
      by rewrite ?lookup_delete_eq, ?lookup_delete_ne, ?lookup_insert_ne.
Qed.

Lemma cache_delete_then_get_witness :
  cache_get
    (cache_delete
       (cache_set MoreRuns.cache_local (MoreRuns.clock 1000) "k" (JStr "v") 60).2
       (MoreRuns.clock 1001) "k").2 (MoreRuns.clock 1002) "k" = None.
Proof.
  assert ("k" ≠ "other") as Hne by discriminate.
  exact (proj1 (cache_delete_then_get
                  (cache_set MoreRuns.cache_local (MoreRuns.clock 1000) "k"
                     (JStr "v") 60).2
                  (MoreRuns.clock 1001) (MoreRuns.clock 1002) "k" "other"
                  JNull 0 Hne)).
Defined.

(** X8. [cleanup_expired_cache] cannot be noticed by a reader: run at
    some time, it changes neither what [_offline_cache_get] returns at
    that time or later, for any key, nor the [cache_entries] count of
    [get_database_stats]. What it leaves in the table when SQLite
    answers are the rows that do not expire before its clock. *)
Theorem cleanup_is_invisible st env env' key :
  utcnow env <= utcnow env' ->
  _offline_cache_get (cleanup_expired_cache st env) env' key =
    _offline_cache_get st env' key ∧
  count_live (utcnow env') (app_cache (cleanup_expired_cache st env)) =
    count_live (utcnow env') (app_cache st) ∧
  map_Forall (fun _ row => sqlite_ok env = false ∨ utcnow env <= expires_at row)
    (app_cache (cleanup_expired_cache st env)).
Proof.
  intros Hle. unfold cleanup_expired_cache, _offline_cache_get, count_live.
  destruct (sqlite_ok env) eqn:Hs; simpl.
  - split_and!.
    + destruct (sqlite_ok env'); [|done]. rewrite map_lookup_filter.
      destruct (app_cache st !! key) as [row|]; simpl; [|done].
      case_guard as Hg; simpl in *; [done|].
      rewrite decide_False; [done|]. lia.
    + f_equal. rewrite map_filter_filter. apply map_filter_ext.
      intros k row _. simpl. lia.
    + intros k row Hrow. right.
      apply map_lookup_filter_Some in Hrow as [_ Hrow]. simpl in Hrow. lia.
  - split_and!; [done|done|]. intros k row _. by left.
Qed.

Lemma cleanup_is_invisible_witness :
  _offline_cache_get
    (cleanup_expired_cache
       (cache_set MoreRuns.cache_local (MoreRuns.clock 1000) "k" (JStr "v") 60).2
       (MoreRuns.clock 1030))
    (MoreRuns.clock 1040) "k" = Some (JStr "v").
Proof.
  assert (utcnow (MoreRuns.clock 1030) <= utcnow (MoreRuns.clock 1040)) as Hle
    by (simpl; lia).
  rewrite (proj1 (cleanup_is_invisible
                    (cache_set MoreRuns.cache_local (MoreRuns.clock 1000) "k"
                       (JStr "v") 60).2
                    (MoreRuns.clock 1030) (MoreRuns.clock 1040) "k" Hle)).
  vm_compute. reflexivity.
Defined.

End MoreCache.

(** * Further properties of the offline analytics store *)

Section MoreAnalytics.
Import Analytics AnalyticsSync.

(** X9. [_process_batch_sync] never marks an event and never sends one:
    [get_db_session()] is an async generator, not a context manager, so
    the [async with] of line 888 raises in every call that got that far
    and the handler of line 901 logs it. The periodic sync therefore
    leaves the table as it is, and offers the same batch in every
    turn. *)
Theorem batch_sync_never_marks (dbs : analytics_db) (env : batch_env)
    (events : list event_row) (envs : nat -> bool * batch_env) (n : nat)
    (sqlite_ok : bool) :
  db_after (_process_batch_sync dbs env events) = dbs ∧
  sent (_process_batch_sync dbs env events) = [] ∧
  is_Some (logged (_process_batch_sync dbs env events)) ∧
  periodic_turns envs n dbs = dbs ∧
  get_unsynced_events (periodic_turns envs n dbs) sqlite_ok 100 =
    get_unsynced_events dbs sqlite_ok 100.
Proof.
  assert (forall d e evs, db_after (_process_batch_sync d e evs) = d) as Hdb.
  { intros d e evs. unfold _process_batch_sync, process_batch_sync_with.
    by destruct (forallb (parse_ok e) evs). }
  assert (periodic_turns envs n dbs = dbs) as Hturns.
  { induction n as [|n IH]; [done|]. cbn [periodic_turns]. rewrite IH.
    unfold periodic_turn.
    destruct (get_unsynced_events dbs (envs n).1 100); [done|apply Hdb]. }
  split_and!; [apply Hdb| | |done|by rewrite Hturns].
  - unfold _process_batch_sync, process_batch_sync_with.
    by destruct (forallb (parse_ok env) events).
  - unfold _process_batch_sync, process_batch_sync_with.
    destruct (forallb (parse_ok env) events); simpl; by eexists.
Qed.

(** X10. When the limit is not negative, the batch
    [get_unsynced_events] returns has at most [limit] events: exactly
    [limit] when that many are unsynced and SQLite answers, all the
    unsynced events when there are fewer, none when SQLite raises. And it
    is the oldest part of the backlog: an unsynced event left out of the
    batch is not older than any event in it. *)
Theorem unsynced_batch_is_the_oldest dbs sqlite_ok limit :
  0 <= limit ->
  (length (get_unsynced_events dbs sqlite_ok limit) <= Z.to_nat limit)%nat ∧
  length (get_unsynced_events dbs sqlite_ok limit) =
    (if sqlite_ok
     then Nat.min (Z.to_nat limit)
            (length (filter (fun e => synced e = false)
                       (analytics_events dbs)))
     else 0%nat) ∧
  forall e e',
    e ∈ get_unsynced_events dbs sqlite_ok limit ->
    e' ∈ analytics_events dbs -> synced e' = false ->
    e' ∉ get_unsynced_events dbs sqlite_ok limit ->
    timestamp_le e e'.
Proof.
  intros Hlimit.
  unfold get_unsynced_events, sql_limit.
  destruct sqlite_ok; [|split_and!; [simpl; lia|done|]].
  2: { intros e e' He. by apply elem_of_nil in He. }
  rewrite decide_False by lia.
  set (l := merge_sort timestamp_le
              (filter (fun e => synced e = false) (analytics_events dbs))).
  assert (length l =
          length (filter (fun e => synced e = false) (analytics_events dbs)))
    as Hl by (unfold l; by rewrite merge_sort_Permutation).
  split_and!.
  - rewrite length_take. lia.
  - by rewrite length_take, Hl.
  - intros e e' He He' Hs' Hout.
    assert (e' ∈ l) as Hin.
    { unfold l. rewrite merge_sort_Permutation. by apply list_elem_of_filter. }
    rewrite <- (take_drop (Z.to_nat limit) l) in Hin.
    apply elem_of_app in Hin as [Hin|Hin]; [done|].
    assert (StronglySorted timestamp_le l) as Hsorted.
    { unfold l. apply StronglySorted_merge_sort;
        [apply timestamp_le_trans|apply timestamp_le_total]. }
    rewrite <- (take_drop (Z.to_nat limit) l) in Hsorted.
    by eapply StronglySorted_app_1_elem_of.
Qed.

Lemma unsynced_batch_is_the_oldest_witness :
  0 <= 2 ∧
  length (get_unsynced_events three_events true 2) = 2%nat ∧
  timestamp_le (event_at 1 "2024-05-01T10:00:02" false)
    (event_at 2 "2024-05-01T10:00:03" false).
Proof.
  destruct (unsynced_batch_is_the_oldest three_events true 2 ltac:(lia))
    as (_ & Hlen & Hold).
  split; [lia|]. split; [rewrite Hlen; reflexivity|].
  apply Hold.
  - apply (bool_decide_unpack _). vm_compute. exact I.
  - apply (bool_decide_unpack _). vm_compute. exact I.
  - reflexivity.
  - apply (bool_decide_eq_false_1 _). vm_compute. reflexivity.
Defined.

Lemma unsynced_batch_elem dbs sqlite_ok limit e :
  e ∈ get_unsynced_events dbs sqlite_ok limit ->
  e ∈ analytics_events dbs ∧ synced e = false.
Proof.
  unfold get_unsynced_events, sql_limit. intros He.
  destruct sqlite_ok; [|by apply elem_of_nil in He].
  assert (e ∈ merge_sort timestamp_le
                (filter (fun e => synced e = false) (analytics_events dbs)))
    as He'.
  { case_decide; [done|]. eapply subseteq_take; exact He. }
  rewrite merge_sort_Permutation in He'.
  apply list_elem_of_filter in He'. tauto.
Qed.

Lemma unsynced_backlog_elem dbs e :
  e ∈ get_unsynced_events dbs true (-1) <->
  e ∈ analytics_events dbs ∧ synced e = false.
Proof.
  unfold get_unsynced_events, sql_limit. rewrite decide_True by lia.
  rewrite merge_sort_Permutation, list_elem_of_filter. tauto.
Qed.

Lemma keyed_events_inj (t : list event_row) e1 e2 :
  NoDup (id <$> t) -> e1 ∈ t -> e2 ∈ t -> id e1 = id e2 -> e1 = e2.
Proof.
  induction t as [|x t IH]; intros Hnd H1 H2 Heq.
  - by apply elem_of_nil in H1.
  - rewrite fmap_cons in Hnd. apply NoDup_cons in Hnd as [Hx Hnd].
    apply elem_of_cons in H1 as [->|H1]; apply elem_of_cons in H2 as [->|H2];
      auto.
    + exfalso. apply Hx. rewrite Heq. by apply list_elem_of_fmap_2.
    + exfalso. apply Hx. rewrite <- Heq. by apply list_elem_of_fmap_2.
Qed.

(** X11. Marking the ids of a batch takes exactly that batch out of the
    backlog: with [id] a key of the table, the events
    [get_unsynced_events] offers after [mark_events_synced] on the ids
    of a batch it returned are the unsynced events of before that were
    not in the batch. *)
Theorem marked_batch_leaves_the_backlog dbs limit e :
  NoDup (id <$> analytics_events dbs) ->
  let batch := get_unsynced_events dbs true limit in
  let dbs' := (mark_events_synced dbs true (id <$> batch)).2 in
  e ∈ get_unsynced_events dbs' true (-1) <->
  e ∈ get_unsynced_events dbs true (-1) ∧ e ∉ batch.
Proof.
  intros Hkey. cbv zeta. rewrite !unsynced_backlog_elem.
  unfold mark_events_synced. simpl.
  set (batch := get_unsynced_events dbs true limit).
  rewrite list_elem_of_fmap. split.
  - intros [(e0 & -> & He0) Hs].
    case_decide as Hout; [done|].
    split_and!; [done|done|].
    intros Hb. apply Hout. by apply list_elem_of_fmap_2.
  - intros [[He Hs] Hout]. split; [|done]. exists e. split; [|done].
    rewrite decide_False; [done|].
    intros (b & Hid & Hb)%list_elem_of_fmap.
    destruct (unsynced_batch_elem dbs true limit b Hb) as [Hbt _].
    assert (e = b) by eauto using keyed_events_inj. by subst.
Qed.

Lemma marked_batch_leaves_the_backlog_witness :
  event_at 2 "2024-05-01T10:00:03" false ∈
    get_unsynced_events
      (mark_events_synced three_events true
         (id <$> get_unsynced_events three_events true 2)).2 true (-1).
Proof.
  assert (NoDup (id <$> analytics_events three_events)) as Hkey.
  { apply (bool_decide_unpack _). vm_compute. exact I. }
  apply (marked_batch_leaves_the_backlog three_events 2
           (event_at 2 "2024-05-01T10:00:03" false) Hkey).
  split.
  - apply (bool_decide_unpack _). vm_compute. exact I.
  - apply (bool_decide_eq_false_1 _). vm_compute. reflexivity.
Defined.

(** X12. An event stored by [store_event] is offered by
    [get_unsynced_events] exactly when it was stored with [synced]
    false; it is offered under the id the table assigned, whatever id the
    caller's event carried, and the events offered before are still
    offered. *)
Theorem stored_event_is_offered dbs e e' :
  e' ∈ get_unsynced_events (store_event dbs true e).2 true (-1) <->
  e' ∈ get_unsynced_events dbs true (-1) ∨
  (synced e = false ∧
   e' = {| id := next_rowid dbs; event_type := event_type e;
           user_id := user_id e; session_id := session_id e;
           timestamp := timestamp e; properties := properties e;
           metadata := metadata e; platform := platform e;
           app_version := app_version e; offline := offline e;
           synced := synced e |}).
Proof.
  rewrite !unsynced_backlog_elem. unfold store_event. simpl.
  rewrite elem_of_app, list_elem_of_singleton. split.
  - intros [[He|He] Hs]; [by left|]. subst e'. right. by split.
  - intros [[He Hs]|[Hs He]]; [by auto|]. subst e'. split; [by right|done].
Qed.

End MoreAnalytics.

(** * More on [OfflineManager.process_queue] *)

Section MoreOfflineMgr.
Import OfflineMgr OfflineLog.

Variable execute : string -> json_dict -> outcome bool.
Variable envs : nat -> iter_env.
Variable now : Z.

(** One iteration keeps what the deque held, and keeps or completes the
    action it popped; when it raises, the action is back in the deque. *)
Lemma process_one_keeps env st a d :
  queue st `prefix_of` queue (process_one execute env st a d).2 ∧
  ((a, d) ∈ queue (process_one execute env st a d).2 ∨
   (completes execute env a d = true ∧
    exists u, (process_one execute env st a d).1 = Returned u)) ∧
  (forall e, (process_one execute env st a d).1 = Raised e ->
     (a, d) ∈ queue (process_one execute env st a d).2).
Proof.
  unfold process_one, completes.
  destruct (execute a d) as [[|]|e0];
    destruct (delete_ok env), (increment_ok env), (handler_increment_ok env);
    simpl; (split; [|split]);
    try (by eexists []; rewrite app_nil_r);
    try (by apply prefix_app_r);
    try (by eexists; rewrite <-app_assoc);
    try (by left; set_solver);
    try (by right; eauto);
    try (intros ? ?; set_solver).
Qed.

(** X13. An action in the deque of [OfflineManager] is never dropped by
    [process_queue]: after any number of iterations, whether the loop has
    finished, was left by an exception or is still running, the action was
    executed with success and its rows deleted, or it is still in the
    deque. *)
Theorem queued_action_is_never_dropped fuel i st x :
  x ∈ queue st ->
  x ∈ completed execute envs fuel i st ∨
  x ∈ queue (final (process_queue_from execute envs now fuel i st)).
Proof.
  revert i st. induction fuel as [|fuel IH]; intros i st Hx.
  - by right.
  - cbn [process_queue_from completed].
    destruct (queue st) as [|[a d] q] eqn:E; [by apply elem_of_nil in Hx|].
    pose proof (process_one_keeps (envs i) (with_memory_queue st q) a d)
      as (Hpre & Hpop & Hraise).
    destruct (process_one execute (envs i) (with_memory_queue st q) a d)
      as [[u|e] st'] eqn:E1; simpl in *.
    + apply elem_of_cons in Hx as [->|Hx].
      * destruct Hpop as [Hin|[Hc _]].
        -- destruct (IH (S i) st' Hin) as [H|H]; [left|by right].
           apply elem_of_app. by right.
        -- left. rewrite Hc. apply elem_of_app. left. constructor.
      * assert (x ∈ queue st') as Hin.
        { destruct Hpre as [k ->]. apply elem_of_app. by left. }
        destruct (IH (S i) st' Hin) as [H|H]; [left|by right].
        apply elem_of_app. by right.
    + right. apply elem_of_cons in Hx as [->|Hx]; [by eapply Hraise|].
      destruct Hpre as [k ->]. apply elem_of_app. by left.
Qed.

Lemma filter_all {A} (P : A -> Prop) `{forall x, Decision (P x)} (l : list A) :
  Forall P l -> filter P l = l.
Proof.
  induction 1 as [|x l Hx _ IH]; [done|].
  by rewrite filter_cons_True, IH.
Qed.

(** X14. With the placeholder [_execute_action] and a database that
    accepts every DELETE, [process_queue] returns after one iteration per
    queued action, and what it leaves of the table is decided by content
    alone: every row with the action of a queued pair and data equal to
    its data as JSONB values, whatever the order of the keys, is gone,
    whoever inserted it, and every other row is kept as it was. *)
Theorem drain_deletes_by_content i st :
  (forall j, delete_ok (envs j) = true) ->
  process_queue_from _execute_action envs now (S (length (queue st))) i st =
    Finished {| queue := [];
                offline_queue :=
                  filter (fun r => Forall (fun x => ¬ same_action x.1 x.2 r)
                                     (queue st))
                         (offline_queue st);
                next_id := next_id st; last_sync := now |}.
Proof.
  intros Hdel. remember (length (queue st)) as n eqn:Hn.
  revert i st Hn. induction n as [|n IH]; intros i st Hn.
  - destruct (queue st) eqn:E; [|done]. cbn [process_queue_from]. rewrite E.
    do 2 f_equal. symmetry. apply filter_all, Forall_forall.
    intros r _. constructor.
  - cbn [process_queue_from]. destruct (queue st) as [|[a d] q] eqn:E; [done|].
    unfold process_one, _execute_action. rewrite Hdel.
    etrans;
      [apply (IH (S i) (with_table (with_memory_queue st q)
                (delete_matching a d (offline_queue (with_memory_queue st q)))));
       simpl in Hn |- *; lia|].
    simpl. do 2 f_equal.
    unfold delete_matching. rewrite list_filter_filter.
    apply list_filter_iff. intros r. rewrite Forall_cons. simpl.
    split; intros [? ?]; by split.
Qed.

(** X15. When an action reports failure and the first write of its
    attempt counter raises, the handler appends the action a second time:
    the iteration returns with the action twice at the end of the deque
    and its attempts counted once, and the loop goes on from there. *)
Theorem failed_counter_write_queues_twice fuel i st a d q :
  queue st = (a, d) :: q ->
  execute a d = Returned false ->
  increment_ok (envs i) = false ->
  handler_increment_ok (envs i) = true ->
  process_queue_from execute envs now (S fuel) i st =
    process_queue_from execute envs now fuel (S i)
      {| queue := q ++ [(a, d); (a, d)];
         offline_queue := _increment_attempt a d (offline_queue st);
         next_id := next_id st; last_sync := last_sync st |}.
Proof.
  intros Hq Hex Hinc Hh. cbn [process_queue_from]. rewrite Hq.
  unfold process_one. rewrite Hex, Hinc, Hh. simpl.
  by rewrite <-app_assoc.
Qed.

End MoreOfflineMgr.

Section MoreOfflineMgrRuns.
Import OfflineMgr OfflineLog Run FurtherRuns.

Lemma queued_action_is_never_dropped_witness :
  ("create_post", payload) ∈ queue mgr_one ∧
  (("create_post", payload) ∈ completed always_false db_fine 5 0 mgr_one ∨
   ("create_post", payload) ∈
     queue (final (process_queue_from always_false db_fine 77 5 0 mgr_one))).
Proof.
  assert (("create_post", payload) ∈ queue mgr_one) as Hin by (simpl; constructor).
  split; [exact Hin|].
  exact (queued_action_is_never_dropped always_false db_fine 77 5 0 mgr_one
           ("create_post", payload) Hin).
Defined.

Lemma drain_deletes_by_content_witness :
  (forall j, delete_ok (db_fine j) = true) ∧
  process_queue_from _execute_action db_fine 77
      (S (length (queue mgr_reordered))) 0 mgr_reordered =
    Finished {| queue := [];
                offline_queue :=
                  [ {| id := 2; action := "like"; data := two_keys;
                       attempts := 0 |} ];
                next_id := 3; last_sync := 77 |}.
Proof.
  split; [done|].
  rewrite (drain_deletes_by_content db_fine 77 0 mgr_reordered); [|done].
  vm_compute. reflexivity.
Defined.

Lemma failed_counter_write_queues_twice_witness :
  process_queue_from always_false counter_denied 77 3 0 mgr_one =
    process_queue_from always_false counter_denied 77 2 1
      {| queue := [] ++ [("create_post", payload); ("create_post", payload)];
         offline_queue :=
           _increment_attempt "create_post" payload (offline_queue mgr_one);
         next_id := next_id mgr_one; last_sync := last_sync mgr_one |}.
Proof.
  apply (failed_counter_write_queues_twice always_false counter_denied 77 2 0
           mgr_one "create_post" payload []); reflexivity.
Defined.

End MoreOfflineMgrRuns.

(** * Properties of the decorator [rate_limit] *)

Section RateLimitFacts.
Import RateLimit.

Variables max_requests window : Z.

Lemma purge_split cutoff q :
  exists pre, q = pre ++ purge cutoff q ∧ Forall (fun t => t < cutoff) pre.
Proof.
  induction q as [|t q (pre & Heq & Hpre)]; simpl.
  - by exists [].
  - case_decide as Ht.
    + exists (t :: pre). split; [by rewrite <-app_comm_cons, <-Heq|].
      by constructor.
    + by exists [].
Qed.

Lemma purge_all cutoff q : Forall (fun t => t < cutoff) q -> purge cutoff q = [].
Proof.
  induction 1 as [|t q Ht _ IH]; simpl; [done|]. by rewrite decide_True.
Qed.

Lemma serve_cons_fst (x : string * Z)
    (p : list (string * Z) * gmap string (list Z)) :
  (let '(let_through, rl) := p in (x :: let_through, rl)).1 = x :: p.1.
Proof. by destruct p. Qed.

Lemma serve_snoc rl calls u now :
  serve max_requests window rl (calls ++ [(u, now)]) =
    let q := purge (now - window)
               (default [] ((serve max_requests window rl calls).2 !! u)) in
    if decide (max_requests <= Z.of_nat (length q))
    then ((serve max_requests window rl calls).1,
          <[u := q]> (serve max_requests window rl calls).2)
    else ((serve max_requests window rl calls).1 ++ [(u, now)],
          <[u := q ++ [now]]> (serve max_requests window rl calls).2).
Proof.
  revert rl. induction calls as [|[u0 t0] calls IH]; intros rl; simpl.
  - unfold wrapper. by case_decide.
  - unfold wrapper.
    destruct (decide (max_requests <= Z.of_nat (length
                (purge (t0 - window) (default [] (rl !! u0)))))) as [H|H].
    + apply IH.
    + rewrite IH.
      destruct (serve max_requests window
                  (<[u0:=purge (t0 - window) (default [] (rl !! u0)) ++ [t0]]> rl)
                  calls) as [adm rl1].
      simpl. by case_decide.
Qed.

(** What the limiter remembers of a key is what was let through for it,
    less instants that were older than the window at some request; and
    only requests that were made are let through. *)
Lemma serve_tracks calls :
  (forall u, exists dropped,
     times_of u (serve max_requests window ∅ calls).1
       ≡ₚ dropped ++ default [] ((serve max_requests window ∅ calls).2 !! u) ∧
     Forall (fun t => exists c, c ∈ calls ∧ t < c.2 - window) dropped) ∧
  (forall c, c ∈ (serve max_requests window ∅ calls).1 -> c ∈ calls).
Proof.
  induction calls as [|[u now] calls [J T]] using rev_ind.
  - split; [|done]. intros u. exists []. simpl. by rewrite ?lookup_empty.
  - rewrite serve_snoc. cbv zeta.
    destruct (serve max_requests window ∅ calls) as [adm rl]. simpl in J, T.
    destruct (purge_split (now - window) (default [] (rl !! u)))
      as (pre & Heq & Hpre).
    assert (forall dr,
      Forall (fun t => exists c, c ∈ calls ∧ t < c.2 - window) dr ->
      Forall (fun t => exists c, c ∈ calls ++ [(u, now)] ∧ t < c.2 - window) dr)
      as Hmono.
    { intros dr Hdr. eapply Forall_impl; [exact Hdr|].
      intros t (c & Hc & Hlt). exists c.
      split; [apply elem_of_app; by left|done]. }
    assert (Forall (fun t => exists c, c ∈ calls ++ [(u, now)] ∧ t < c.2 - window)
              pre) as Hpre'.
    { eapply Forall_impl; [exact Hpre|]. intros t Ht. exists (u, now).
      split; [apply elem_of_app; right; constructor|done]. }
    case_decide as Hlen; cbn [fst snd]; split.
    + intros u'. destruct (J u') as (dr & Hp & Hf).
      destruct (decide (u' = u)) as [->|Hne].
      * exists (dr ++ pre). rewrite lookup_insert_eq. simpl. split.
        -- rewrite Hp, <-app_assoc. f_equiv. by rewrite <-Heq.
        -- apply Forall_app. split; [by apply Hmono|done].
      * exists dr. rewrite lookup_insert_ne by done.
        split; [done|by apply Hmono].
    + intros c Hc. apply elem_of_app. left. by apply T.
    + intros u'. destruct (J u') as (dr & Hp & Hf).
      unfold times_of in *. rewrite filter_app, fmap_app.
      destruct (decide (u' = u)) as [->|Hne].
      * exists (dr ++ pre).
        rewrite lookup_insert_eq, filter_cons_True by done. simpl. split.
        -- rewrite Hp, <-!app_assoc. f_equiv. by rewrite (app_assoc pre), <-Heq.
        -- apply Forall_app. split; [by apply Hmono|done].
      * exists dr.
        rewrite lookup_insert_ne, filter_cons_False by (simpl; congruence).
        simpl. rewrite app_nil_r. split; [done|by apply Hmono].
    + intros c [Hc| ->%list_elem_of_singleton]%elem_of_app; apply elem_of_app.
      * left. by apply T.
      * right. constructor.
Qed.

Lemma length_in_window u t calls :
  length (in_window window u t calls) =
  length (filter (fun t' => t - window <= t' ∧ t' <= t) (times_of u calls)).
Proof.
  unfold in_window, times_of.
  induction calls as [|c calls IH]; [done|].
  rewrite !filter_cons.
  destruct (decide (c.1 = u)) as [Hu|Hu]; simpl.
  - rewrite filter_cons.
    destruct (decide (t - window <= c.2 ∧ c.2 <= t)) as [Hw|Hw].
    + rewrite decide_True by done. simpl. by rewrite IH.
    + rewrite decide_False by tauto. done.
  - rewrite decide_False by tauto. done.
Qed.

(** X16. Under a clock that does not go back, [rate_limit] keeps its
    bound on every window: starting from the empty limiter, for each
    request that reached the decorated function, at most [max_requests]
    requests of the same key reached it in the [window] ending at that
    request, both ends of the window included. *)
Theorem rate_limit_bounds_every_window calls :
  StronglySorted Z.le (calls.*2) ->
  forall u t, (u, t) ∈ (serve max_requests window ∅ calls).1 ->
    Z.of_nat (length (in_window window u t
                        (serve max_requests window ∅ calls).1))
      <= max_requests.
Proof.
  induction calls as [|[u now] calls IH] using rev_ind; intros Hs.
  - intros u t Hin. by apply elem_of_nil in Hin.
  - rewrite fmap_app in Hs. apply StronglySorted_app in Hs as (Hle & Hs & _).
    specialize (IH Hs). rewrite serve_snoc. cbv zeta.
    destruct (serve_tracks calls) as [J T].
    destruct (serve max_requests window ∅ calls) as [adm rl].
    cbn [fst snd] in *.
    case_decide as Hlen; cbn [fst snd]; [exact IH|].
    assert (forall c, c ∈ calls -> c.2 <= now) as Hnow.
    { intros c Hc. apply Hle; [by apply list_elem_of_fmap_2|constructor]. }
    assert (Z.of_nat (length (in_window window u now (adm ++ [(u, now)])))
              <= max_requests) as K.
    { destruct (purge_split (now - window) (default [] (rl !! u)))
        as (pre & Heq & Hpre).
      destruct (J u) as (dr & Hp & Hf).
      unfold in_window. rewrite filter_app, length_app.
      fold (in_window window u now adm). rewrite length_in_window, Hp, Heq.
      rewrite !filter_app, !length_app.
      rewrite (filter_none _ dr), (filter_none _ pre).
      - pose proof (length_filter
          (fun t' => now - window <= t' ∧ t' <= now)
          (purge (now - window) (default [] (rl !! u)))) as H1.
        pose proof (length_filter
          (fun c : string * Z => c.1 = u ∧ now - window <= c.2 ∧ c.2 <= now)
          [(u, now)]) as H2.
        simpl in H1, H2 |- *. lia.
      - eapply Forall_impl; [exact Hpre|]. simpl. lia.
      - eapply Forall_impl; [exact Hf|]. intros t (c & Hc & Hlt).
        apply Hnow in Hc. simpl. lia. }
    intros u0 t0 [Hin|Hin%list_elem_of_singleton]%elem_of_app;
      [|by injection Hin as -> ->].
    destruct (decide (u0 = u ∧ t0 = now)) as [[-> ->]|Hne]; [exact K|].
    unfold in_window. rewrite filter_app, filter_cons_False, app_nil_r.
    + by apply IH.
    + simpl. intros (-> & _ & Hle0). apply Hne. split; [done|].
      apply T, Hnow in Hin. simpl in Hin. lia.
Qed.

(** X17. The limiter reopens: with a bound of at least one request,
    whatever was served before, a request whose key has let nothing
    through within the last [window] reaches the decorated function. No
    number of refused requests in between delays it, since a refused
    request is not recorded. *)
Theorem rate_limit_reopens calls u now :
  0 < max_requests ->
  (forall t, (u, t) ∈ (serve max_requests window ∅ calls).1 ->
     t < now - window) ->
  (serve max_requests window ∅ (calls ++ [(u, now)])).1 =
    (serve max_requests window ∅ calls).1 ++ [(u, now)].
Proof.
  intros Hmax Hold. rewrite serve_snoc. cbv zeta.
  destruct (serve_tracks calls) as [J _]. destruct (J u) as (dr & Hp & _).
  rewrite purge_all; [by rewrite decide_False by (simpl; lia)|].
  apply Forall_forall. intros t Ht. apply Hold.
  assert (t ∈ times_of u (serve max_requests window ∅ calls).1) as Hin.
  { rewrite Hp. apply elem_of_app. by right. }
  unfold times_of in Hin.
  apply list_elem_of_fmap in Hin as ([u' t'] & -> & Hin).
  by apply list_elem_of_filter in Hin as [<- Hin].
Qed.

(** X18. Keys do not interfere: which requests of a key reach the
    decorated function is the same whether or not requests of other keys
    are served in between, from any limiter. *)
Theorem rate_limit_is_per_key rl calls u :
  filter (fun c => c.1 = u) (serve max_requests window rl calls).1 =
    (serve max_requests window rl (filter (fun c => c.1 = u) calls)).1.
Proof.
  enough (forall rl1 rl2, default [] (rl1 !! u) = default [] (rl2 !! u) ->
    filter (fun c => c.1 = u) (serve max_requests window rl1 calls).1 =
      (serve max_requests window rl2 (filter (fun c => c.1 = u) calls)).1)
    as H by by apply H.
  induction calls as [|[u0 t0] calls IH]; intros rl1 rl2 Hag; [done|].
  rewrite filter_cons. destruct (decide ((u0, t0).1 = u)) as [Hu|Hu];
    simpl in Hu; simpl; unfold wrapper.
  - subst u0. rewrite Hag.
    destruct (decide (max_requests <= Z.of_nat (length
                (purge (t0 - window) (default [] (rl2 !! u)))))) as [H|H].
    + apply IH. by rewrite !lookup_insert_eq.
    + rewrite !serve_cons_fst, filter_cons_True by done. f_equal.
      apply IH. by rewrite !lookup_insert_eq.
  - destruct (decide (max_requests <= Z.of_nat (length
                (purge (t0 - window) (default [] (rl1 !! u0)))))) as [H|H].
    + apply IH. by rewrite lookup_insert_ne.
    + rewrite serve_cons_fst, filter_cons_False by done.
      apply IH. by rewrite lookup_insert_ne.
Qed.

End RateLimitFacts.

Section RateLimitRuns.
Import RateLimit FurtherRuns.

Lemma rate_limit_bounds_every_window_witness :
  StronglySorted Z.le (four_calls.*2) ∧
  ("alice", 20) ∈ (serve 2 25 ∅ four_calls).1 ∧
  Z.of_nat (length (in_window 25 "alice" 20 (serve 2 25 ∅ four_calls).1)) <= 2.
Proof.
  assert (StronglySorted Z.le (four_calls.*2)) as Hs
    by (apply (bool_decide_unpack _); vm_compute; exact I).
  assert (("alice", 20) ∈ (serve 2 25 ∅ four_calls).1) as Hin
    by (apply (bool_decide_unpack _); vm_compute; exact I).
  split; [exact Hs|]. split; [exact Hin|].
  exact (rate_limit_bounds_every_window 2 25 four_calls Hs "alice" 20 Hin).
Defined.

Lemma rate_limit_reopens_witness :
  0 < 2 ∧
  (forall t, ("alice", t) ∈ (serve 2 25 ∅ four_calls).1 -> t < 60 - 25) ∧
  (serve 2 25 ∅ (four_calls ++ [("alice", 60)])).1 =
    (serve 2 25 ∅ four_calls).1 ++ [("alice", 60)].
Proof.
  assert (Forall (fun c : string * Z => c.1 = "alice" -> c.2 < 60 - 25)
            (serve 2 25 ∅ four_calls).1) as HF
    by (apply (bool_decide_unpack _); vm_compute; exact I).
  assert (forall t, ("alice", t) ∈ (serve 2 25 ∅ four_calls).1 -> t < 60 - 25)
    as Hold.
  { intros t Ht. exact (proj1 (Forall_forall _ _) HF _ Ht eq_refl). }
  split; [lia|]. split; [exact Hold|].
  apply (rate_limit_reopens 2 25 four_calls "alice" 60); [lia|exact Hold].
Defined.

End RateLimitRuns.

(** * Properties of the queue file under post objects *)

Section PostStoreFacts.
Import PostStore.

Lemma dumps_none d k v :
  (k, v) ∈ d -> dumps_value v = None -> dumps d = None.
Proof.
  induction d as [|[k0 v0] d IH]; intros Hin Hv; [by apply elem_of_nil in Hin|].
  apply elem_of_cons in Hin as [[= <- <-]|Hin]; simpl.
  - by rewrite Hv.
  - rewrite (IH Hin Hv). by destruct (dumps_value v0).
Qed.

Lemma dumps_some d :
  (forall k v, (k, v) ∈ d -> exists j, v = PJson j) ->
  exists d', dumps d = Some d' ∧ prod_map id PJson <$> d' = d.
Proof.
  induction d as [|[k0 v0] d IH]; intros Hall; [by exists []|].
  destruct (Hall k0 v0) as [j ->]; [constructor|].
  destruct IH as (d' & Hd & Hk).
  { intros k v Hin. apply (Hall k). by constructor. }
  exists ((k0, j) :: d'). split; [simpl; by rewrite Hd|].
  rewrite fmap_cons. by rewrite Hk.
Qed.

(** X19. When a field of the post holds a value [json.dumps] rejects, a
    member of [PlatformType] or [PostStatus] or a [datetime],
    [queue_for_publishing] raises and the queue file is left empty:
    afterwards no user has a queued post, and [process_offline_queue]
    sends nothing for any user. *)
Theorem unserializable_post_empties_the_queue file user_id p uuid4 now k v :
  (k, v) ∈ to_dict p ->
  dumps_value v = None ->
  (queue_for_publishing file user_id p uuid4 now).1 = Raised TypeError ∧
  forall u unicode_lower publish,
    Social.user_queue_of
      (Social._load_queue (queue_for_publishing file user_id p uuid4 now).2) u
      = [] ∧
    Social.sent
      (Social.process_offline_queue unicode_lower publish
         (queue_for_publishing file user_id p uuid4 now).2 u) = [].
Proof.
  intros Hin Hv. unfold queue_for_publishing.
  rewrite (dumps_none _ _ _ Hin Hv). simpl. split; [done|].
  intros u ul publish. split.
  - unfold Social.user_queue_of, Social._load_queue. by rewrite lookup_empty.
  - unfold Social.process_offline_queue, Social.process_offline_queue_from,
      Social.user_queue_of, Social._load_queue.
    by rewrite lookup_empty.
Qed.

(** X20. A post whose fields all hold JSON values is queued as its
    dictionary: [queue_for_publishing] returns the identifier it drew,
    the new item is the last of the user's list, with no retry counted
    and three allowed, and the lists of the other users are unchanged. *)
Theorem json_post_is_queued file user_id p uuid4 now :
  (forall k v, (k, v) ∈ to_dict p -> exists j, v = PJson j) ->
  exists d,
    prod_map id PJson <$> d = to_dict p ∧
    (queue_for_publishing file user_id p uuid4 now).1 = Returned uuid4 ∧
    Social.user_queue_of (queue_for_publishing file user_id p uuid4 now).2
        user_id =
      Social.user_queue_of file user_id ++
        [ {| Social.id := uuid4; Social.post := d; Social.queued_at := now;
             Social.retry_count := 0; Social.max_retries := 3 |} ] ∧
    forall u, u ≠ user_id ->
      (queue_for_publishing file user_id p uuid4 now).2 !! u = file !! u.
Proof.
  intros Hall. destruct (dumps_some _ Hall) as (d & Hd & Hk).
  exists d. unfold queue_for_publishing. rewrite Hd. simpl.
  split; [done|]. split; [done|]. split.
  - unfold Social.user_queue_of at 1. by rewrite lookup_insert_eq.
  - intros u Hu. by rewrite lookup_insert_ne.
Qed.

(** X21. [schedule_post] never returns a schedule identifier: whatever
    the post, the platforms and the state of Redis, it raises, and the
    queue file is then as it was or empty. The post is never added. *)
Theorem schedule_post_never_succeeds env file user_id p platforms :
  exists e,
    (schedule_post env file user_id p platforms).1 = Raised e ∧
    ((schedule_post env file user_id p platforms).2 = file ∨
     (schedule_post env file user_id p platforms).2 = ∅).
Proof.
  unfold schedule_post.
  destruct (mapM value_of platforms); [|by eexists; split; [|left]].
  destruct (schedule_time p) as [j|c v|iso] eqn:Hst; cbn [isoformat_of];
    try (by eexists; split; [|left]).
  assert (dumps (to_dict p) = None) as Hd.
  { apply (dumps_none _ "schedule_time" (PDatetime iso)); [|done].
    unfold to_dict. rewrite Hst. do 5 apply list_elem_of_further.
    constructor. }
  unfold queue_for_publishing. rewrite Hd.
  destruct (redis_client env); simpl.
  - exists TypeError. split; [done|by left].
  - exists TypeError. split; [done|by right].
Qed.

Lemma dict_set_fresh {V} k (v : V) d :
  k ∉ d.*1 -> dict_set k v d = d ++ [(k, v)].
Proof.
  induction d as [|[k0 v0] d IH]; intros Hk; [done|].
  rewrite fmap_cons in Hk. apply not_elem_of_cons in Hk as [Hne Hk].
  simpl in Hne |- *. rewrite decide_False by done. by rewrite IH.
Qed.

(** X22. When a field of the post holds a value [json.dumps] rejects,
    as the default [status] does, [save_draft] raises and the drafts file
    is left empty: [get_user_drafts] then returns no draft for any user. *)
Theorem unserializable_draft_empties_the_drafts
    file user_id p uuid4 created updated k v :
  (k, v) ∈ to_dict p ->
  dumps_value v = None ->
  (save_draft file user_id p uuid4 created updated).1 = Raised TypeError ∧
  forall u,
    get_user_drafts (save_draft file user_id p uuid4 created updated).2 u = [].
Proof.
  intros Hin Hv. unfold save_draft.
  rewrite (dumps_none _ k v); [|apply elem_of_app; by left|done].
  split; [done|]. intros u. unfold get_user_drafts, _load_drafts. simpl.
  by rewrite lookup_empty.
Qed.

(** X23. A draft whose fields all hold JSON values, saved under a draft
    id the user does not have yet, is the last of the drafts
    [get_user_drafts] returns for the user: the fields of the post in
    their order, then [created_at] and [updated_at]. The drafts before it
    and the drafts of the other users are as they were. *)
Theorem saved_draft_is_listed file user_id p uuid4 created updated :
  (forall k v, (k, v) ∈ to_dict p -> exists j, v = PJson j) ->
  uuid4 ∉ (default [] (file !! user_id)).*1 ->
  exists d,
    prod_map id PJson <$> d = to_dict p ∧
    (save_draft file user_id p uuid4 created updated).1 = Returned uuid4 ∧
    get_user_drafts (save_draft file user_id p uuid4 created updated).2
        user_id =
      get_user_drafts file user_id ++
        [d ++ [("created_at", JStr created); ("updated_at", JStr updated)]] ∧
    forall u, u ≠ user_id ->
      get_user_drafts (save_draft file user_id p uuid4 created updated).2 u =
        get_user_drafts file u.
Proof.
  intros Hall Hfresh. destruct (dumps_some _ Hall) as (d & Hd & Hk).
  exists d. split; [done|].
  assert (dumps (to_dict p ++ [("created_at", PJson (JStr created));
                               ("updated_at", PJson (JStr updated))]) =
          Some (d ++ [("created_at", JStr created);
                      ("updated_at", JStr updated)])) as Hdraft.
  { clear Hk Hall. revert d Hd.
    induction (to_dict p) as [|[k0 v0] l IH]; intros d Hd.
    - by injection Hd as <-.
    - simpl in Hd |- *. destruct (dumps_value v0); [|done].
      destruct (dumps l) as [l'|]; [|done]. injection Hd as <-.
      by rewrite (IH l'). }
  unfold save_draft, get_user_drafts, _load_drafts. rewrite Hdraft.
  cbn [fst snd]. split; [done|]. split.
  - rewrite lookup_insert_eq. simpl.
    by rewrite dict_set_fresh, fmap_app.
  - intros u Hu. by rewrite lookup_insert_ne.
Qed.

End PostStoreFacts.

Section PostStoreRuns.
Import PostStore Run FurtherRuns.

Lemma unserializable_post_empties_the_queue_witness :
  ("status", DRAFT) ∈ to_dict typed_post ∧
  dumps_value DRAFT = None ∧
  (queue_for_publishing alice_file "bob" typed_post "q-2"
     "2024-05-01T11:00:00").1 = Raised TypeError ∧
  forall u unicode_lower publish,
    Social.user_queue_of
      (Social._load_queue
         (queue_for_publishing alice_file "bob" typed_post "q-2"
            "2024-05-01T11:00:00").2) u = [] ∧
    Social.sent
      (Social.process_offline_queue unicode_lower publish
         (queue_for_publishing alice_file "bob" typed_post "q-2"
            "2024-05-01T11:00:00").2 u) = [].
Proof.
  assert (("status", DRAFT) ∈ to_dict typed_post) as Hin.
  { unfold to_dict. simpl. do 7 apply list_elem_of_further. constructor. }
  split; [exact Hin|]. split; [reflexivity|].
  exact (unserializable_post_empties_the_queue alice_file "bob" typed_post
           "q-2" "2024-05-01T11:00:00" "status" DRAFT Hin eq_refl).
Defined.

Lemma json_post_is_queued_witness :
  (forall k v, (k, v) ∈ to_dict loaded_post -> exists j, v = PJson j) ∧
  exists d,
    prod_map id PJson <$> d = to_dict loaded_post ∧
    (queue_for_publishing alice_file "bob" loaded_post "q-2"
       "2024-05-01T11:00:00").1 = Returned "q-2" ∧
    Social.user_queue_of
        (queue_for_publishing alice_file "bob" loaded_post "q-2"
           "2024-05-01T11:00:00").2 "bob" =
      Social.user_queue_of alice_file "bob" ++
        [ {| Social.id := "q-2"; Social.post := d;
             Social.queued_at := "2024-05-01T11:00:00";
             Social.retry_count := 0; Social.max_retries := 3 |} ] ∧
    forall u, u ≠ "bob" ->
      (queue_for_publishing alice_file "bob" loaded_post "q-2"
         "2024-05-01T11:00:00").2 !! u = alice_file !! u.
Proof.
  assert (forall k v, (k, v) ∈ to_dict loaded_post -> exists j, v = PJson j)
    as Hall.
  { intros k v Hin. unfold to_dict, loaded_post in Hin. simpl in Hin.
    repeat (apply elem_of_cons in Hin as [[= -> ->]|Hin]; [by eexists|]).
    by apply elem_of_nil in Hin. }
  split; [exact Hall|].
  exact (json_post_is_queued alice_file "bob" loaded_post "q-2"
           "2024-05-01T11:00:00" Hall).
Defined.

Lemma unserializable_draft_empties_the_drafts_witness :
  ("status", DRAFT) ∈ to_dict typed_post ∧
  dumps_value DRAFT = None ∧
  (save_draft ∅ "bob" typed_post "d-1" "2024-05-01T11:00:00"
     "2024-05-01T11:00:01").1 = Raised TypeError ∧
  forall u,
    get_user_drafts
      (save_draft ∅ "bob" typed_post "d-1" "2024-05-01T11:00:00"
         "2024-05-01T11:00:01").2 u = [].
Proof.
  assert (("status", DRAFT) ∈ to_dict typed_post) as Hin.
  { unfold to_dict. simpl. do 7 apply list_elem_of_further. constructor. }
  split; [exact Hin|]. split; [reflexivity|].
  exact (unserializable_draft_empties_the_drafts ∅ "bob" typed_post "d-1"
           "2024-05-01T11:00:00" "2024-05-01T11:00:01" "status" DRAFT
           Hin eq_refl).
Defined.

Lemma saved_draft_is_listed_witness :
  (forall k v, (k, v) ∈ to_dict loaded_post -> exists j, v = PJson j) ∧
  ("d-1" ∉
     (default [] ((∅ : gmap string (list (string * json_dict))) !! "bob")).*1) ∧
  exists d,
    prod_map id PJson <$> d = to_dict loaded_post ∧
    (save_draft ∅ "bob" loaded_post "d-1" "2024-05-01T11:00:00"
       "2024-05-01T11:00:01").1 = Returned "d-1" ∧
    get_user_drafts
        (save_draft ∅ "bob" loaded_post "d-1" "2024-05-01T11:00:00"
           "2024-05-01T11:00:01").2 "bob" =
      get_user_drafts ∅ "bob" ++
        [d ++ [("created_at", JStr "2024-05-01T11:00:00");
               ("updated_at", JStr "2024-05-01T11:00:01")]] ∧
    forall u, u ≠ "bob" ->
      get_user_drafts
        (save_draft ∅ "bob" loaded_post "d-1" "2024-05-01T11:00:00"
           "2024-05-01T11:00:01").2 u = get_user_drafts ∅ u.
Proof.
  assert (forall k v, (k, v) ∈ to_dict loaded_post -> exists j, v = PJson j)
    as Hall.
  { intros k v Hin. unfold to_dict, loaded_post in Hin. simpl in Hin.
    repeat (apply elem_of_cons in Hin as [[= -> ->]|Hin]; [by eexists|]).
    by apply elem_of_nil in Hin. }
  assert ("d-1" ∉ (default []
            ((∅ : gmap string (list (string * json_dict))) !! "bob")).*1)
    as Hfresh.
  { rewrite lookup_empty. apply not_elem_of_nil. }
  split; [exact Hall|]. split; [exact Hfresh|].
  exact (saved_draft_is_listed ∅ "bob" loaded_post "d-1"
           "2024-05-01T11:00:00" "2024-05-01T11:00:01" Hall Hfresh).
Defined.

End PostStoreRuns.

(** * Properties of event tracking *)

Section TrackingFacts.
Import Analytics AnalyticsSync Tracking.

(** X24. [track_event] answers ["tracked"] whether or not the event was
    stored. When SQLite answers, the event is the new last row of the
    table, under the id the table assigns, not synced, and flagged
    offline exactly when the service has no Redis client; from then on
    [get_unsynced_events] offers it, with everything it offered before.
    When SQLite does not answer, the table and what
    [get_unsynced_events] offers are unchanged, and the reply is the
    same. The Redis task is handed over only when a client is set. *)
Theorem track_event_reports_tracked redis_client dbs sqlite_ok uid sid req
    now :
  let r := track_event redis_client dbs sqlite_ok uid sid req now in
  let row := {| id := next_rowid dbs; event_type := r_event_type req;
                user_id := uid; session_id := sid;
                timestamp := isoformat now; properties := r_properties req;
                metadata := r_metadata req; platform := r_platform req;
                app_version := r_app_version req;
                offline := negb redis_client; synced := false |} in
  reply r = Returned ("tracked", uid +:+ "_" +:+ epoch_seconds now) ∧
  table_after r =
    (if sqlite_ok then
       {| analytics_events := analytics_events dbs ++ [row];
          next_rowid := next_rowid dbs + 1 |}
     else dbs) ∧
  (forall e',
     e' ∈ get_unsynced_events (table_after r) true (-1) <->
     e' ∈ get_unsynced_events dbs true (-1) ∨ (sqlite_ok = true ∧ e' = row)) ∧
  (forall e, StoreRealtimeEvent e ∈ tasks r -> redis_client = true).
Proof.
  unfold track_event, store_event. cbv zeta.
  cbn [reply table_after tasks event_type user_id session_id timestamp
       properties metadata platform app_version offline synced].
  split; [done|]. split; [by destruct sqlite_ok|]. split.
  - intros e'. unfold get_unsynced_events, sql_limit.
    rewrite !decide_True by lia.
    rewrite !merge_sort_Permutation, !list_elem_of_filter.
    destruct sqlite_ok; cbn [snd analytics_events].
    + rewrite elem_of_app, list_elem_of_singleton. split.
      * intros [Hs [He|He]]; [by left; split|right; by split].
      * intros [[Hs He]|[_ ->]]; [split; [done|by left]|].
        split; [done|by right].
    + split; [by left|]. by intros [?|[? _]].
  - intros e He. destruct redis_client; [done|].
    repeat (apply elem_of_cons in He as [He|He]; [done|]).
    by apply elem_of_nil in He.
Qed.

Lemma periodic_turn_table dbs sqlite_ok env :
  db_after (periodic_turn dbs sqlite_ok env) = dbs.
Proof.
  unfold periodic_turn. destruct (get_unsynced_events dbs sqlite_ok 100); [done|].
  unfold _process_batch_sync, process_batch_sync_with, get_db_session.
  simpl. by destruct (parse_ok env e && forallb (parse_ok env) l).
Qed.

Lemma apply_track dbs rc ok uid sid req now :
  apply_op dbs (Track rc ok uid sid req now) =
    if ok then
      {| analytics_events := analytics_events dbs ++
           [ {| id := next_rowid dbs; event_type := r_event_type req;
                user_id := uid; session_id := sid;
                timestamp := isoformat now; properties := r_properties req;
                metadata := r_metadata req; platform := r_platform req;
                app_version := r_app_version req;
                offline := negb rc; synced := false |} ];
         next_rowid := next_rowid dbs + 1 |}
    else dbs.
Proof. by destruct ok. Qed.

(** X25. The backlog only grows: over any sequence of tracked events
    and turns of the periodic sync, no row of the table is changed or
    removed, each event tracked while SQLite answered adds one row that
    is not synced, and nothing else adds a row. No event is ever marked
    synced. *)
Theorem analytics_backlog_only_grows dbs ops :
  exists added,
    analytics_events (run_ops dbs ops) = analytics_events dbs ++ added ∧
    Forall (fun e => synced e = false) added ∧
    length added = stored_tracks ops ∧
    next_rowid (run_ops dbs ops) = next_rowid dbs + Z.of_nat (length added).
Proof.
  unfold run_ops, stored_tracks. revert dbs.
  induction ops as [|o ops IH]; intros dbs.
  - exists []. simpl. rewrite app_nil_r. repeat split; [done|lia].
  - cbn [foldl]. rewrite filter_cons.
    destruct (IH (apply_op dbs o)) as (added & Hev & Hall & Hlen & Hnext).
    destruct o as [rc [] uid sid req now|ok env]; cbn [stores].
    + rewrite decide_True by done.
      rewrite apply_track in Hev, Hnext |- *.
      cbv iota in Hev, Hnext |- *. cbn [analytics_events next_rowid] in Hev, Hnext.
      eexists (_ :: added). rewrite Hev, <-app_assoc.
      split; [done|]. split; [by constructor|].
      split; [simpl; by rewrite Hlen|]. rewrite Hnext. simpl length. lia.
    + rewrite decide_False by done.
      rewrite apply_track in Hev, Hnext |- *. by exists added.
    + rewrite decide_False by done.
      change (apply_op dbs (SyncTurn ok env))
        with (db_after (periodic_turn dbs ok env)) in Hev, Hnext |- *.
      rewrite periodic_turn_table in Hev, Hnext |- *. by exists added.
Qed.

End TrackingFacts.
